(** * The authenticated key exchange of otr3 (ake.go), embedded in Rocq

    The development follows ake.go function by function.  Go values are
    embedded as follows:
    - [*big.Int] is [option Z] where the code tests or may dereference a nil
      pointer, [Z] where the value is known to be present;
    - [[]byte] and fixed-size byte arrays are [list byte];
    - a Go [error] is [option error]; a function returning [(T, error)]
      with a nil [T] on failure is a [result T];
    - methods with a pointer receiver are functions in a state monad with
      a [Panic] outcome for nil dereferences. *)

From Stdlib Require Import ZArith Zpow_facts String Bool Lia List.
From Stdlib.Strings Require Import Byte.
Import ListNotations.
Open Scope Z_scope.

Set Implicit Arguments.

(** ** Bytes and the Go library functions the package calls *)

Definition bytes := list byte.

Definition byteZ (b : byte) : Z := Z.of_N (Byte.to_N b).

Definition bytes_eqb (x y : bytes) : bool :=
  if list_eq_dec Byte.byte_eq_dec x y then true else false.

(** big.Int.SetBytes: the big-endian unsigned integer held in a slice. *)
Definition SetBytes (buf : bytes) : Z :=
  fold_left (fun acc b => acc * 256 + byteZ b) buf 0.

(** subtle.ConstantTimeByteEq on uint8 arguments:
    [int((uint32(x^y) - 1) >> 31)]. *)
Definition ConstantTimeByteEq (x y : Z) : Z :=
  Z.shiftr ((Z.lxor x y - 1) mod 2 ^ 32) 31.

(** The loop of subtle.ConstantTimeCompare: [v |= x[i] ^ y[i]]. *)
Fixpoint ctLoop (v : Z) (x y : bytes) : Z :=
  match x, y with
  | a :: x', b :: y' => ctLoop (Z.lor v (Z.lxor (byteZ a) (byteZ b))) x' y'
  | _, _ => v
  end.

(** subtle.ConstantTimeCompare: 1 when the slices are equal, 0 otherwise,
    and 0 at once when the lengths differ. *)
Definition ConstantTimeCompare (x y : bytes) : Z :=
  if negb (Nat.eqb (length x) (length y)) then 0
  else ConstantTimeByteEq (ctLoop 0 x y) 0.

(** Go errors.  [errors.New] and the package's own [newOtrError] build an
    error from a text; io.EOF and io.ErrUnexpectedEOF are the io package's
    sentinels, which the code compares by identity. *)
Inductive error : Type :=
| ioEOF
| ioErrUnexpectedEOF
| errorsNew (s : string)
| newOtrError (s : string).

Inductive result (A : Type) : Type :=
| Ok (a : A)
| Err (e : error).
Arguments Ok {A} a.
Arguments Err {A} e.

(** An io.Reader over a finite supply of bytes: the state of the reader is
    what it has left. *)
Definition Reader := bytes.

(** io.ReadFull(r, buf): fills [buf] entirely or fails.  On a short read the
    bytes that were read overwrite the front of [buf], the reader is
    exhausted and the error is io.EOF (nothing read) or
    io.ErrUnexpectedEOF. *)
Definition ReadFull (rd : Reader) (buf : bytes) : (bytes * option error) * Reader :=
  let n := length buf in
  if Nat.leb n (length rd) then ((firstn n rd, None), skipn n rd)
  else ((rd ++ skipn (length rd) buf,
         Some (match rd with [] => ioEOF | _ => ioErrUnexpectedEOF end)), []).

(** make([]byte, n) *)
Definition make (n : nat) : bytes := repeat x00 n.

(** ** Structures of the package *)

(** akeKeys: one AES key and two MAC keys. *)
Record akeKeys : Type := {
  c : bytes;
  m1 : bytes;
  m2 : bytes
}.

(** The four AKE messages.  [gx] and [gy] are [*big.Int]. *)
Module dhCommit.
Record t : Type := {
  messageHeader : bytes;
  gx : option Z;
  encryptedGx : bytes;
  hashedGx : bytes
}.
End dhCommit.

Module dhKey.
Record t : Type := {
  messageHeader : bytes;
  gy : option Z
}.
End dhKey.

Module revealSig.
Record t : Type := {
  messageHeader : bytes;
  r : bytes;
  encryptedSig : bytes;
  macSig : bytes
}.
End revealSig.

Module sig.
Record t : Type := {
  messageHeader : bytes;
  encryptedSig : bytes;
  macSig : bytes
}.
End sig.

Definition msgTypeData : byte := x03.
Definition msgTypeDHCommit : byte := x02.
Definition msgTypeDHKey : byte := x0a.
Definition msgTypeRevealSig : byte := x11.
Definition msgTypeSig : byte := x12.

(** Modelled from the spec: the type of [c.ake.state] is declared outside
    the files at hand; section 4.5 names the states of the handshake. *)
Inductive authState : Type :=
| authStateNone
| authStateAwaitingDHKey
| authStateAwaitingRevealSig
| authStateAwaitingSig.

(** ** What ake.go uses and does not define

    The Go standard library's cryptography, the package's wire-format
    helpers, its message (de)serializers, the long-term keys, the key
    derivation and the message header are taken as an interface.  The
    sentinel errors are package-level variables. *)
Class ExternalTypes : Type := {
  PublicKey : Type;
  PrivateKey : Type;
  (** version and instance tags, owned by the transport layer *)
  Transport : Type;
  (** keyManagementContext: the type of a MAC key and the fields other
      than oldMACKeys *)
  macKey : Type;
  keyFields : Type
}.

Class Externals {T : ExternalTypes} : Type := {
  (** the protocol prime *)
  p : Z;
  errShortRandomRead : error;
  errInvalidOTRMessage : error;
  errCorruptEncryptedSignature : error;
  (** the [Error()] text of [newOtrError(s)] *)
  otrErrorText : string -> string;
  (** sha256.Sum256 *)
  sha256_Sum256 : bytes -> bytes;
  (** hmac.New(sha256.New, key), Write(data), Sum(nil) *)
  hmac_sha256 : bytes -> bytes -> bytes;
  (** aes.NewCipher(key), cipher.NewCTR with a zero IV, XORKeyStream,
      for a key of the right size *)
  aes_ctr : bytes -> bytes -> bytes;
  appendWord : bytes -> Z -> bytes;
  appendData : bytes -> bytes -> bytes;
  appendMPI : bytes -> Z -> bytes;
  extractWord : bytes -> bytes * Z * bool;
  extractMPI : bytes -> bytes * Z * bool;
  (** encrypt(r, src) = (dst, err); decrypt(r, dst, src) = err, with the
      contents of dst after the call *)
  encrypt : bytes -> bytes -> bytes * option error;
  decrypt : bytes -> bytes -> bytes * option error;
  calculateAKEKeys : Z -> bytes * akeKeys * akeKeys;
  (** the field PrivateKey.PublicKey *)
  PrivateKey_PublicKey : PrivateKey -> PublicKey;
  PublicKey_serialize : PublicKey -> bytes;
  (** parse on a zero PublicKey: the remaining bytes, the receiver after
      the call, ok *)
  PublicKey_parse : bytes -> bytes * PublicKey * bool;
  PublicKey_verify : PublicKey -> bytes -> bytes -> bytes * bool;
  PrivateKey_sign : PrivateKey -> Reader -> bytes -> (bytes * option error) * Reader;
  headerLen : Transport -> nat;
  messageHeader : Transport -> bytes;
  wrapMessageHeader : Transport -> byte -> bytes -> (bytes * option error) * Transport;
  dhCommit_serialize : dhCommit.t -> bytes;
  dhCommit_deserialize : bytes -> result dhCommit.t;
  dhKey_serialize : dhKey.t -> bytes;
  revealSig_serialize : revealSig.t -> bytes;
  revealSig_deserialize : bytes -> result revealSig.t;
  sig_serialize : sig.t -> bytes;
  sig_deserialize : bytes -> result sig.t;
  (** the zero value of the fields of keyManagementContext *)
  zeroKeyFields : keyFields
}.

(** ** State and panics *)

Inductive outcome (A : Type) : Type :=
| Panic
| Return (a : A).
Arguments Panic {A}.
Arguments Return {A} a.

Definition M (S A : Type) : Type := S -> outcome (A * S).

Definition ret {S A : Type} (a : A) : M S A := fun s => Return (a, s).

Definition bind {S A B : Type} (m : M S A) (k : A -> M S B) : M S B :=
  fun s => match m s with
           | Panic => Panic
           | Return (a, s') => k a s'
           end.

Definition get {S : Type} : M S S := fun s => Return (s, s).

Definition modify {S : Type} (f : S -> S) : M S unit := fun s => Return (tt, f s).

Definition panic {S A : Type} : M S A := fun _ => Panic.

(** Dereferencing a pointer: a nil one panics. *)
Definition deref {S A : Type} (o : option A) : M S A :=
  match o with
  | Some a => ret a
  | None => panic
  end.

(** Running a method of a part of the state. *)
Definition within {S T A : Type} (proj : S -> T) (upd : T -> S -> S)
    (m : M T A) : M S A :=
  fun s => match m (proj s) with
           | Panic => Panic
           | Return (a, t') => Return (a, upd t' s)
           end.

Declare Scope go_scope.
Delimit Scope go_scope with go.
Notation "x <- m ;; k" := (bind m (fun x => k))
  (at level 61, m at next level, right associativity) : go_scope.
Notation "' pat <- m ;; k" := (bind m (fun x => match x with pat => k end))
  (at level 61, pat pattern, m at next level, right associativity) : go_scope.
Notation "m ;; k" := (bind m (fun _ => k))
  (at level 61, right associativity) : go_scope.
Open Scope go_scope.

(** ** ake.go *)

Section Definitions.
Context {T : ExternalTypes} {E : Externals}.

(** The fields of akeContext that ake.go reads and writes.  [rand] is the
    reader that the method [rand()] hands out, [transport] what
    [headerLen()] and [messageHeader()] read.  [r] is a [[16]byte] and
    [hashedGx] a [[sha256.Size]byte]. *)
Record akeContext : Type := {
  secretExponent : option Z;
  ourPublicValue : option Z;
  theirPublicValue : option Z;
  r : bytes;
  encryptedGx : bytes;
  hashedGx : bytes;
  sigKey : akeKeys;
  ourKeyID : Z;
  theirKeyID : Z;
  ourKey : option PrivateKey;
  theirKey : option PublicKey;
  rand : Reader;
  transport : Transport
}.

(** AKE embeds akeContext. *)
Record AKE : Type := {
  context : akeContext;
  revealKey : akeKeys;
  ssid : bytes
}.

Definition set_secretExponent (v : option Z) (a : akeContext) : akeContext :=
  {| secretExponent := v; ourPublicValue := ourPublicValue a;
     theirPublicValue := theirPublicValue a; r := r a;
     encryptedGx := encryptedGx a; hashedGx := hashedGx a; sigKey := sigKey a;
     ourKeyID := ourKeyID a; theirKeyID := theirKeyID a; ourKey := ourKey a;
     theirKey := theirKey a; rand := rand a; transport := transport a |}.

Definition set_ourPublicValue (v : option Z) (a : akeContext) : akeContext :=
  {| secretExponent := secretExponent a; ourPublicValue := v;
     theirPublicValue := theirPublicValue a; r := r a;
     encryptedGx := encryptedGx a; hashedGx := hashedGx a; sigKey := sigKey a;
     ourKeyID := ourKeyID a; theirKeyID := theirKeyID a; ourKey := ourKey a;
     theirKey := theirKey a; rand := rand a; transport := transport a |}.

Definition set_theirPublicValue (v : option Z) (a : akeContext) : akeContext :=
  {| secretExponent := secretExponent a; ourPublicValue := ourPublicValue a;
     theirPublicValue := v; r := r a;
     encryptedGx := encryptedGx a; hashedGx := hashedGx a; sigKey := sigKey a;
     ourKeyID := ourKeyID a; theirKeyID := theirKeyID a; ourKey := ourKey a;
     theirKey := theirKey a; rand := rand a; transport := transport a |}.

Definition set_r (v : bytes) (a : akeContext) : akeContext :=
  {| secretExponent := secretExponent a; ourPublicValue := ourPublicValue a;
     theirPublicValue := theirPublicValue a; r := v;
     encryptedGx := encryptedGx a; hashedGx := hashedGx a; sigKey := sigKey a;
     ourKeyID := ourKeyID a; theirKeyID := theirKeyID a; ourKey := ourKey a;
     theirKey := theirKey a; rand := rand a; transport := transport a |}.

Definition set_encryptedGx (v : bytes) (a : akeContext) : akeContext :=
  {| secretExponent := secretExponent a; ourPublicValue := ourPublicValue a;
     theirPublicValue := theirPublicValue a; r := r a;
     encryptedGx := v; hashedGx := hashedGx a; sigKey := sigKey a;
     ourKeyID := ourKeyID a; theirKeyID := theirKeyID a; ourKey := ourKey a;
     theirKey := theirKey a; rand := rand a; transport := transport a |}.

Definition set_hashedGx (v : bytes) (a : akeContext) : akeContext :=
  {| secretExponent := secretExponent a; ourPublicValue := ourPublicValue a;
     theirPublicValue := theirPublicValue a; r := r a;
     encryptedGx := encryptedGx a; hashedGx := v; sigKey := sigKey a;
     ourKeyID := ourKeyID a; theirKeyID := theirKeyID a; ourKey := ourKey a;
     theirKey := theirKey a; rand := rand a; transport := transport a |}.

Definition set_sigKey (v : akeKeys) (a : akeContext) : akeContext :=
  {| secretExponent := secretExponent a; ourPublicValue := ourPublicValue a;
     theirPublicValue := theirPublicValue a; r := r a;
     encryptedGx := encryptedGx a; hashedGx := hashedGx a; sigKey := v;
     ourKeyID := ourKeyID a; theirKeyID := theirKeyID a; ourKey := ourKey a;
     theirKey := theirKey a; rand := rand a; transport := transport a |}.

Definition set_ourKeyID (v : Z) (a : akeContext) : akeContext :=
  {| secretExponent := secretExponent a; ourPublicValue := ourPublicValue a;
     theirPublicValue := theirPublicValue a; r := r a;
     encryptedGx := encryptedGx a; hashedGx := hashedGx a; sigKey := sigKey a;
     ourKeyID := v; theirKeyID := theirKeyID a; ourKey := ourKey a;
     theirKey := theirKey a; rand := rand a; transport := transport a |}.

Definition set_theirKeyID (v : Z) (a : akeContext) : akeContext :=
  {| secretExponent := secretExponent a; ourPublicValue := ourPublicValue a;
     theirPublicValue := theirPublicValue a; r := r a;
     encryptedGx := encryptedGx a; hashedGx := hashedGx a; sigKey := sigKey a;
     ourKeyID := ourKeyID a; theirKeyID := v; ourKey := ourKey a;
     theirKey := theirKey a; rand := rand a; transport := transport a |}.

Definition set_theirKey (v : option PublicKey) (a : akeContext) : akeContext :=
  {| secretExponent := secretExponent a; ourPublicValue := ourPublicValue a;
     theirPublicValue := theirPublicValue a; r := r a;
     encryptedGx := encryptedGx a; hashedGx := hashedGx a; sigKey := sigKey a;
     ourKeyID := ourKeyID a; theirKeyID := theirKeyID a; ourKey := ourKey a;
     theirKey := v; rand := rand a; transport := transport a |}.

Definition set_rand (v : Reader) (a : akeContext) : akeContext :=
  {| secretExponent := secretExponent a; ourPublicValue := ourPublicValue a;
     theirPublicValue := theirPublicValue a; r := r a;
     encryptedGx := encryptedGx a; hashedGx := hashedGx a; sigKey := sigKey a;
     ourKeyID := ourKeyID a; theirKeyID := theirKeyID a; ourKey := ourKey a;
     theirKey := theirKey a; rand := v; transport := transport a |}.

Definition set_transport (v : Transport) (a : akeContext) : akeContext :=
  {| secretExponent := secretExponent a; ourPublicValue := ourPublicValue a;
     theirPublicValue := theirPublicValue a; r := r a;
     encryptedGx := encryptedGx a; hashedGx := hashedGx a; sigKey := sigKey a;
     ourKeyID := ourKeyID a; theirKeyID := theirKeyID a; ourKey := ourKey a;
     theirKey := theirKey a; rand := rand a; transport := v |}.

Definition set_context (v : akeContext) (a : AKE) : AKE :=
  {| context := v; revealKey := revealKey a; ssid := ssid a |}.

Definition set_revealKey (v : akeKeys) (a : AKE) : AKE :=
  {| context := context a; revealKey := v; ssid := ssid a |}.

Definition set_ssid (v : bytes) (a : AKE) : AKE :=
  {| context := context a; revealKey := revealKey a; ssid := v |}.

(** A write to a field of the embedded akeContext. *)
Definition on_context (f : akeContext -> akeContext) (a : AKE) : AKE :=
  set_context (f (context a)) a.

(** A method of the embedded akeContext called on an AKE. *)
Definition promoted {A : Type} (m : M akeContext A) : M AKE A :=
  within context set_context m.

(** Modelled from the spec: the generator [g1] is declared outside the
    files at hand; the range of a DH public value is [2 <= value <= p-2]
    with the bounds [g1] and [p-2] (sections 3 and 4.1). *)
Definition g1 : Z := 2.

(** Modelled from the spec: [pMinusTwo] is declared outside the files at
    hand; it is the upper bound [p-2] of section 3. *)
Definition pMinusTwo : Z := p - 2.

(** Modelled from the spec: [modExp] is declared outside the files at hand;
    section 4.1 has [modExp(base, exponent, prime)], here with the protocol
    prime and by repeated squaring, for an exponent that is not negative. *)
Definition modExp (g x : Z) : Z := Zpow_mod g x p.

(** Modelled from the spec: the range predicates [lt] and [gt] of section
    4.1, and the comparison [eq] of two big integers, are declared outside
    the files at hand. *)
Definition lt (l r : Z) : bool := Z.ltb l r.
Definition gt (l r : Z) : bool := Z.gtb l r.
Definition eq (l r : Z) : bool := Z.eqb l r.

(** Modelled from the spec: [randMPI] is declared outside the files at
    hand.  Section 6: the secure random byte source fills the buffer, and a
    short read is a hard failure, never padded; the exponent is the integer
    the filled buffer holds. *)
Definition randMPI (buf : bytes) : M akeContext (option Z * bool) :=
  ake <- get ;;
  let '((buf', err), rd) := ReadFull (rand ake) buf in
  modify (set_rand rd) ;;
  match err with
  | Some _ => ret (None, false)
  | None => ret (Some (SetBytes buf'), true)
  end.

(** Modelled from the spec: [dhKey.deserialize] is declared outside the
    files at hand.  Section 4.1: the body is one MPI, decoding fails on a
    malformed integer, and range bounds are re-checked after decoding;
    section 4.4: trailing bytes are rejected; section 3: a value outside
    [2, p-2] is rejected.  The order of the checks is that of extractGx. *)
Definition dhKey_deserialize (msg : bytes) : result dhKey.t :=
  let '(rest, gy, ok) := extractMPI msg in
  if negb ok || Nat.ltb 0 (length rest) then Err errInvalidOTRMessage
  else if lt gy g1 || gt gy pMinusTwo
       then Err (errorsNew "otr: DH value out of range")
       else Ok {| dhKey.messageHeader := []; dhKey.gy := Some gy |}.

(** The method [Error()] of an error. *)
Definition Error (e : error) : string :=
  match e with
  | ioEOF => "EOF"
  | ioErrUnexpectedEOF => "unexpected EOF"
  | errorsNew s => s
  | newOtrError s => otrErrorText s
  end.

Definition sumHMAC (key data : bytes) : bytes := hmac_sha256 key data.

Definition sha256Sum (x : bytes) : bytes := sha256_Sum256 x.

Definition calcAKEKeys (s : Z) : M AKE unit :=
  let '(ssid', revealKey', sigKey') := calculateAKEKeys s in
  modify (fun ake =>
    on_context (set_sigKey sigKey') (set_revealKey revealKey' (set_ssid ssid' ake))).

Definition setSecretExponent (val : Z) : M akeContext unit :=
  modify (set_secretExponent (Some val)) ;;
  modify (set_ourPublicValue (Some (modExp g1 val))).

(** modExp dereferences both pointers. *)
Definition calcDHSharedSecret : M AKE Z :=
  ake <- get ;;
  g <- deref (theirPublicValue (context ake)) ;;
  x <- deref (secretExponent (context ake)) ;;
  ret (modExp g x).

(** The big integers and the key are dereferenced by the callers, where a
    nil pointer panics. *)
Definition appendAll (one two : Z) (publicKey : PublicKey) (keyID : Z) : bytes :=
  appendWord (appendMPI (appendMPI [] one) two ++ PublicKey_serialize publicKey) keyID.

Definition calcXb (key : akeKeys) (mb : bytes) : M AKE (result bytes) :=
  ake <- get ;;
  priv <- deref (ourKey (context ake)) ;;
  let xb := PublicKey_serialize (PrivateKey_PublicKey priv) in
  let xb := appendWord xb (ourKeyID (context ake)) in
  let '((sigb, err), rd) := PrivateKey_sign priv (rand (context ake)) mb in
  modify (on_context (set_rand rd)) ;;
  match err with
  | Some ioErrUnexpectedEOF => ret (Err errShortRandomRead)
  | Some e => ret (Err e)
  | None =>
      let xb := xb ++ sigb in
      ret (Ok (aes_ctr (c key) xb))
  end.

Definition generateEncryptedSignature (key : akeKeys) : M AKE (result bytes) :=
  ake <- get ;;
  one <- deref (ourPublicValue (context ake)) ;;
  two <- deref (theirPublicValue (context ake)) ;;
  priv <- deref (ourKey (context ake)) ;;
  let verifyData :=
    appendAll one two (PrivateKey_PublicKey priv) (ourKeyID (context ake)) in
  let mb := sumHMAC (m1 key) verifyData in
  res <- calcXb key mb ;;
  match res with
  | Err err => ret (Err err)
  | Ok xb => ret (Ok (appendData [] xb))
  end.

Definition dhCommitMessage : M AKE (result bytes) :=
  modify (on_context (set_ourKeyID 0)) ;;
  '(x, ok) <- promoted (randMPI (make 40)) ;;
  if negb ok then ret (Err errShortRandomRead)
  else
    x <- deref x ;;
    promoted (setSecretExponent x) ;;
    ake <- get ;;
    let '((buf, err), rd) := ReadFull (rand (context ake)) (r (context ake)) in
    modify (on_context (fun a => set_r buf (set_rand rd a))) ;;
    match err with
    | Some _ => ret (Err errShortRandomRead)
    | None =>
        ake <- get ;;
        gx <- deref (ourPublicValue (context ake)) ;;
        let '(enc, _) := encrypt (r (context ake)) (appendMPI [] gx) in
        modify (on_context (set_encryptedGx enc)) ;;
        ake <- get ;;
        let dhCommitMsg :=
          {| dhCommit.messageHeader := messageHeader (transport (context ake));
             dhCommit.gx := ourPublicValue (context ake);
             dhCommit.encryptedGx := encryptedGx (context ake);
             dhCommit.hashedGx := make 32 |} in
        ret (Ok (dhCommit_serialize dhCommitMsg))
    end.

Definition serializeDHCommit (ake : AKE) : bytes :=
  let dhCommitMsg :=
    {| dhCommit.messageHeader := messageHeader (transport (context ake));
       dhCommit.gx := theirPublicValue (context ake);
       dhCommit.encryptedGx := encryptedGx (context ake);
       dhCommit.hashedGx := make 32 |} in
  dhCommit_serialize dhCommitMsg.

Definition serializeDHKey (ake : AKE) : bytes :=
  let dhKeyMsg :=
    {| dhKey.messageHeader := messageHeader (transport (context ake));
       dhKey.gy := ourPublicValue (context ake) |} in
  dhKey_serialize dhKeyMsg.

Definition dhKeyMessage : M AKE (result bytes) :=
  '(y, ok) <- promoted (randMPI (make 40)) ;;
  if negb ok then ret (Err errShortRandomRead)
  else
    y <- deref y ;;
    promoted (setSecretExponent y) ;;
    ake <- get ;;
    ret (Ok (serializeDHKey ake)).

Definition revealSigMessage : M AKE (result bytes) :=
  s <- calcDHSharedSecret ;;
  calcAKEKeys s ;;
  ake <- get ;;
  res <- generateEncryptedSignature (revealKey ake) ;;
  match res with
  | Err err => ret (Err err)
  | Ok encryptedSig =>
      ake <- get ;;
      let macSig := sumHMAC (m2 (revealKey ake)) encryptedSig in
      let revealSigMsg :=
        {| revealSig.messageHeader := messageHeader (transport (context ake));
           revealSig.r := r (context ake);
           revealSig.encryptedSig := encryptedSig;
           revealSig.macSig := macSig |} in
      ret (Ok (revealSig_serialize revealSigMsg))
  end.

Definition sigMessage : M AKE (result bytes) :=
  s <- calcDHSharedSecret ;;
  calcAKEKeys s ;;
  ake <- get ;;
  res <- generateEncryptedSignature (sigKey (context ake)) ;;
  match res with
  | Err err => ret (Err err)
  | Ok encryptedSig =>
      ake <- get ;;
      let macSig := sumHMAC (m2 (sigKey (context ake))) encryptedSig in
      let sigMsg :=
        {| sig.messageHeader := messageHeader (transport (context ake));
           sig.encryptedSig := encryptedSig;
           sig.macSig := macSig |} in
      ret (Ok (sig_serialize sigMsg))
  end.

(** [f2] is the method [deserialize] of a message: here it returns the
    message it filled in when it reports no error. *)
Definition chainErrors {A : Type} (f1 : bytes -> result bytes)
    (f2 : bytes -> result A) (msg : bytes) : result A :=
  match f1 msg with
  | Err e1 => Err e1
  | Ok res => f2 res
  end.

Definition ensureValidMessage (ake : AKE) (msg : bytes) : result bytes :=
  if Nat.ltb (length msg) (headerLen (transport (context ake)))
  then Err errInvalidOTRMessage
  else Ok (skipn (headerLen (transport (context ake))) msg).

Definition processDHCommit (msg : bytes) : M AKE (option error) :=
  ake <- get ;;
  match chainErrors (ensureValidMessage ake) dhCommit_deserialize msg with
  | Err err => ret (Some err)
  | Ok dhCommitMsg =>
      modify (on_context (set_encryptedGx (dhCommit.encryptedGx dhCommitMsg))) ;;
      modify (on_context (set_hashedGx (dhCommit.hashedGx dhCommitMsg))) ;;
      ret None
  end.

Definition processDHKey (msg : bytes) : M AKE (bool * option error) :=
  ake <- get ;;
  match chainErrors (ensureValidMessage ake) dhKey_deserialize msg with
  | Err err => ret (false, Some err)
  | Ok dhKeyMsg =>
      match theirPublicValue (context ake) with
      | Some theirs =>
          gy <- deref (dhKey.gy dhKeyMsg) ;;
          ret (eq theirs gy, None)
      | None =>
          modify (on_context (set_theirPublicValue (dhKey.gy dhKeyMsg))) ;;
          ret (false, None)
      end
  end.

Definition extractGx (decryptedGx : bytes) : Z * option error :=
  let '(newData, gx, ok) := extractMPI decryptedGx in
  if negb ok || Nat.ltb 0 (length newData)
  then (gx, Some (errorsNew "otr: gx corrupt after decryption"))
  else if lt gx g1 || gt gx pMinusTwo
       then (gx, Some (errorsNew "otr: DH value out of range"))
       else (gx, None).

Definition checkDecryptedGx (decryptedGx hashedGx : bytes) : option error :=
  let digest := sha256Sum decryptedGx in
  if Z.eqb (ConstantTimeCompare digest hashedGx) 0
  then Some (errorsNew "otr: bad commit MAC in reveal signature message")
  else None.

Definition processEncryptedSig (encryptedSig theirMAC : bytes) (keys : akeKeys)
    : M AKE (option error) :=
  let tomac := appendData [] encryptedSig in
  let myMAC := firstn 20 (sumHMAC (m2 keys) tomac) in
  if negb (Nat.eqb (length myMAC) (length theirMAC))
     || Z.eqb (ConstantTimeCompare myMAC theirMAC) 0
  then ret (Some (errorsNew "bad signature MAC in encrypted signature"))
  else
    let '(decryptedSig, err) := decrypt (c keys) encryptedSig in
    match err with
    | Some err => ret (Some err)
    | None =>
        let '(nextPoint, key, ok1) := PublicKey_parse decryptedSig in
        modify (on_context (set_theirKey (Some key))) ;;
        let '(_, keyID, ok2) := extractWord nextPoint in
        if negb ok1 || negb ok2 || Nat.ltb (length nextPoint) 4
        then ret (Some errCorruptEncryptedSignature)
        else
          let sig := skipn 4 nextPoint in
          ake <- get ;;
          one <- deref (theirPublicValue (context ake)) ;;
          two <- deref (ourPublicValue (context ake)) ;;
          let verifyData := appendAll one two key keyID in
          let mb := sumHMAC (m1 keys) verifyData in
          let '(rest, ok) := PublicKey_verify key mb sig in
          if negb ok
          then ret (Some (errorsNew "bad signature in encrypted signature"))
          else if Nat.ltb 0 (length rest)
               then ret (Some errCorruptEncryptedSignature)
               else
                 modify (on_context (set_theirKeyID keyID)) ;;
                 ret None
    end.

Definition processRevealSig (msg : bytes) : M AKE (option error) :=
  ake <- get ;;
  match chainErrors (ensureValidMessage ake) revealSig_deserialize msg with
  | Err err => ret (Some err)
  | Ok revealSigMsg =>
      let r := revealSig.r revealSigMsg in
      let theirMAC := revealSig.macSig revealSigMsg in
      let encryptedSig := revealSig.encryptedSig revealSigMsg in
      let '(decryptedGx, err) := decrypt r (encryptedGx (context ake)) in
      match err with
      | Some err => ret (Some err)
      | None =>
          match checkDecryptedGx decryptedGx (hashedGx (context ake)) with
          | Some err => ret (Some err)
          | None =>
              let '(tempgx, err) := extractGx decryptedGx in
              match err with
              | Some err => ret (Some err)
              | None =>
                  modify (on_context (set_theirPublicValue (Some tempgx))) ;;
                  s <- calcDHSharedSecret ;;
                  calcAKEKeys s ;;
                  ake <- get ;;
                  err <- processEncryptedSig encryptedSig theirMAC (revealKey ake) ;;
                  match err with
                  | Some err =>
                      ret (Some (newOtrError
                        ("in reveal signature message: " ++ Error err)))
                  | None => ret None
                  end
              end
          end
      end
  end.

Definition processSig (msg : bytes) : M AKE (option error) :=
  ake <- get ;;
  match chainErrors (ensureValidMessage ake) sig_deserialize msg with
  | Err err => ret (Some err)
  | Ok sigMsg =>
      let theirMAC := sig.macSig sigMsg in
      let encryptedSig := sig.encryptedSig sigMsg in
      err <- processEncryptedSig encryptedSig theirMAC (sigKey (context ake)) ;;
      match err with
      | Some err =>
          ret (Some (errorsNew ("otr: in signature message: " ++ Error err)))
      | None => ret None
      end
  end.

(** ** sendDHCommit *)

(** keyManagementContext, of which the code at hand names the field
    oldMACKeys only. *)
Record keyManagementContext : Type := {
  otherFields : keyFields;
  oldMACKeys : list macKey
}.

(** The part of a Conversation that sendDHCommit touches: the AKE context
    that [c.dhCommitMessage()] works on, [c.ake.state] and [c.keys]. *)
Record Conversation : Type := {
  ake : AKE;
  state : authState;
  keys : keyManagementContext
}.

Definition set_ake (v : AKE) (c : Conversation) : Conversation :=
  {| ake := v; state := state c; keys := keys c |}.

Definition set_state (v : authState) (c : Conversation) : Conversation :=
  {| ake := ake c; state := v; keys := keys c |}.

Definition set_keys (v : keyManagementContext) (c : Conversation) : Conversation :=
  {| ake := ake c; state := state c; keys := v |}.

(** [c.wrapMessageHeader]: the header comes from the transport's data. *)
Definition wrapMessageHeader_c (msgType : byte) (msg : bytes)
    : M Conversation (bytes * option error) :=
  fun c =>
    let '(res, t) := wrapMessageHeader (transport (context (ake c))) msgType msg in
    Return (res, set_ake (on_context (set_transport t) (ake c)) c).

Definition sendDHCommit : M Conversation (result bytes) :=
  res <- within ake set_ake dhCommitMessage ;;
  match res with
  | Err err => ret (Err err)
  | Ok toSend =>
      '(toSend, err) <- wrapMessageHeader_c msgTypeDHCommit toSend ;;
      match err with
      | Some err => ret (Err err)
      | None =>
          modify (set_state authStateAwaitingDHKey) ;;
          c <- get ;;
          modify (set_keys {| otherFields := zeroKeyFields;
                              oldMACKeys := oldMACKeys (keys c) |}) ;;
          ret (Ok toSend)
      end
  end.

End Definitions.

(** ** A small instance of the interface

    Stand-ins for the external functions, in the manner of the fixed
    random source and fixed keys of the package's tests: the wire helpers
    use four-byte big-endian lengths, the cryptographic functions are
    simple checksums.  They serve to run the definitions above on concrete
    inputs. *)
Module Doubles.

Definition byteOf (z : Z) : byte :=
  match Byte.of_N (Z.to_N (z mod 256)) with
  | Some b => b
  | None => x00
  end.

Fixpoint bigEndian (fuel : nat) (n : Z) (acc : bytes) : bytes :=
  match fuel with
  | O => acc
  | S fuel' =>
      if Z.leb n 0 then acc
      else bigEndian fuel' (n / 256) (byteOf n :: acc)
  end.

(** big.Int.Bytes *)
Definition Bytes (n : Z) : bytes := bigEndian (Z.to_nat (Z.log2 n) + 1) n [].

Definition word (n : Z) : bytes :=
  [byteOf (n / 16777216); byteOf (n / 65536); byteOf (n / 256); byteOf n].

Definition putWord (l : bytes) (n : Z) : bytes := l ++ word n.

Definition putData (l d : bytes) : bytes :=
  putWord l (Z.of_nat (length d)) ++ d.

Definition putMPI (l : bytes) (n : Z) : bytes := putData l (Bytes n).

Definition takeWord (d : bytes) : bytes * Z * bool :=
  match d with
  | b0 :: b1 :: b2 :: b3 :: rest => (rest, SetBytes [b0; b1; b2; b3], true)
  | _ => (d, 0, false)
  end.

Definition takeData (d : bytes) : bytes * bytes * bool :=
  let '(rest, n, ok) := takeWord d in
  if negb ok || Nat.ltb (length rest) (Z.to_nat n) then ([], [], false)
  else (skipn (Z.to_nat n) rest, firstn (Z.to_nat n) rest, true).

Definition takeMPI (d : bytes) : bytes * Z * bool :=
  let '(rest, data, ok) := takeData d in
  (rest, SetBytes data, ok).

Definition checksum (d : bytes) : Z :=
  fold_left (fun acc b => (acc * 31 + byteZ b + 1) mod 256) d 7.

Definition digest (d : bytes) : bytes :=
  map (fun i => byteOf (checksum d + Z.of_nat i * 5)) (seq 0 32).

Definition mac (key data : bytes) : bytes := digest (key ++ x5c :: data).

Definition keystream (key src : bytes) : bytes :=
  map (fun b => byteOf (Z.lxor (byteZ b) (checksum key))) src.

Definition kdf (s : Z) : bytes * akeKeys * akeKeys :=
  let secbytes := putMPI [] s in
  (firstn 8 (digest (x00 :: secbytes)),
   {| c := firstn 16 (digest (x01 :: secbytes));
      m1 := digest (x02 :: secbytes);
      m2 := digest (x03 :: secbytes) |},
   {| c := skipn 16 (digest (x01 :: secbytes));
      m1 := digest (x04 :: secbytes);
      m2 := digest (x05 :: secbytes) |}).

(** A long-term key pair is a number and its successor; a signature is the
    first two bytes of a checksum keyed by the public key; signing draws
    one byte from the random source. *)
Definition signature (pub : Z) (data : bytes) : bytes :=
  firstn 2 (digest (Bytes pub ++ data)).

Definition sign (priv : Z) (rd : Reader) (data : bytes)
    : (bytes * option error) * Reader :=
  match rd with
  | [] => (([], Some ioErrUnexpectedEOF), [])
  | _ :: rd' => ((signature (priv + 1) data, None), rd')
  end.

Definition verify (pub : Z) (data sg : bytes) : bytes * bool :=
  if Nat.ltb (length sg) 2 then ([], false)
  else (skipn 2 sg, bytes_eqb (firstn 2 sg) (signature pub data)).

Definition header : bytes := [x00; x02; x00].

Definition serializeCommit (m : dhCommit.t) : bytes :=
  putData (putData (dhCommit.messageHeader m) (dhCommit.encryptedGx m))
             (match dhCommit.gx m with
              | Some g => digest (putMPI [] g)
              | None => dhCommit.hashedGx m
              end).

Definition deserializeCommit (d : bytes) : result dhCommit.t :=
  let '(d1, enc, ok1) := takeData d in
  let '(d2, h, ok2) := takeData d1 in
  if ok1 && ok2 && Nat.eqb (length d2) 0
  then Ok {| dhCommit.messageHeader := []; dhCommit.gx := None;
             dhCommit.encryptedGx := enc; dhCommit.hashedGx := h |}
  else Err (newOtrError "corrupt DH commit message").

Definition serializeKey (m : dhKey.t) : bytes :=
  match dhKey.gy m with
  | Some g => putMPI (dhKey.messageHeader m) g
  | None => dhKey.messageHeader m
  end.

Definition serializeRevealSig (m : revealSig.t) : bytes :=
  putData (revealSig.messageHeader m) (revealSig.r m)
    ++ revealSig.encryptedSig m ++ firstn 20 (revealSig.macSig m).

Definition deserializeRevealSig (d : bytes) : result revealSig.t :=
  let '(d1, r, ok1) := takeData d in
  let '(d2, enc, ok2) := takeData d1 in
  if ok1 && ok2 && Nat.eqb (length d2) 20
  then Ok {| revealSig.messageHeader := []; revealSig.r := r;
             revealSig.encryptedSig := enc; revealSig.macSig := d2 |}
  else Err (newOtrError "corrupt reveal signature message").

Definition serializeSig (m : sig.t) : bytes :=
  sig.messageHeader m ++ sig.encryptedSig m ++ firstn 20 (sig.macSig m).

Definition deserializeSig (d : bytes) : result sig.t :=
  let '(d1, enc, ok1) := takeData d in
  if ok1 && Nat.eqb (length d1) 20
  then Ok {| sig.messageHeader := []; sig.encryptedSig := enc; sig.macSig := d1 |}
  else Err (newOtrError "corrupt signature message").

#[export] Instance types : ExternalTypes := {|
  PublicKey := Z;
  PrivateKey := Z;
  Transport := unit;
  macKey := bytes;
  keyFields := Z * Z
|}.

#[export] Instance doubles : Externals := {|
  p := 2039;
  errShortRandomRead := newOtrError "short read from random source";
  errInvalidOTRMessage := newOtrError "invalid OTR message";
  errCorruptEncryptedSignature := newOtrError "corrupt encrypted signature";
  otrErrorText := fun s => ("otr: " ++ s)%string;
  sha256_Sum256 := digest;
  hmac_sha256 := mac;
  aes_ctr := keystream;
  appendWord := putWord;
  appendData := putData;
  appendMPI := putMPI;
  extractWord := takeWord;
  extractMPI := takeMPI;
  encrypt := fun key src => (keystream key src, None);
  decrypt := fun key src => (keystream key src, None);
  calculateAKEKeys := kdf;
  PrivateKey_PublicKey := fun priv => priv + 1;
  PublicKey_serialize := fun pub => putMPI [] pub;
  PublicKey_parse := takeMPI;
  PublicKey_verify := verify;
  PrivateKey_sign := sign;
  headerLen := fun _ => 3%nat;
  messageHeader := fun _ => header;
  wrapMessageHeader := fun t ty msg => ((msg, None), t);
  dhCommit_serialize := serializeCommit;
  dhCommit_deserialize := deserializeCommit;
  dhKey_serialize := serializeKey;
  revealSig_serialize := serializeRevealSig;
  revealSig_deserialize := deserializeRevealSig;
  sig_serialize := serializeSig;
  sig_deserialize := deserializeSig;
  zeroKeyFields := (0, 0)
|}.

End Doubles.

(** ** The contexts that the operations of the AKE reach *)

Section Reachability.
Context {T : ExternalTypes} {E : Externals}.

(** secretExponent and ourPublicValue are set together, and then
    ourPublicValue is g1 to the power secretExponent modulo p. *)
Definition exponentInvariant (a : akeContext) : Prop :=
  match secretExponent a, ourPublicValue a with
  | None, None => True
  | Some x, Some gx => gx = (g1 ^ x) mod p
  | _, _ => False
  end.

(** [m] returns and takes the state [s] to [s']. *)
Definition takes {S A : Type} (m : M S A) (s s' : S) : Prop :=
  exists x, m s = Return (x, s').

(** One call of a method of ake.go, or of sendDHCommit on the conversation
    that owns the context. *)
Inductive step : AKE -> AKE -> Prop :=
| step_calcAKEKeys s a a' :
    takes (calcAKEKeys s) a a' -> step a a'
| step_setSecretExponent val a a' :
    takes (promoted (setSecretExponent val)) a a' -> step a a'
| step_calcDHSharedSecret a a' :
    takes calcDHSharedSecret a a' -> step a a'
| step_generateEncryptedSignature key a a' :
    takes (generateEncryptedSignature key) a a' -> step a a'
| step_calcXb key mb a a' :
    takes (calcXb key mb) a a' -> step a a'
| step_dhCommitMessage a a' :
    takes dhCommitMessage a a' -> step a a'
| step_dhKeyMessage a a' :
    takes dhKeyMessage a a' -> step a a'
| step_revealSigMessage a a' :
    takes revealSigMessage a a' -> step a a'
| step_sigMessage a a' :
    takes sigMessage a a' -> step a a'
| step_processDHCommit msg a a' :
    takes (processDHCommit msg) a a' -> step a a'
| step_processDHKey msg a a' :
    takes (processDHKey msg) a a' -> step a a'
| step_processRevealSig msg a a' :
    takes (processRevealSig msg) a a' -> step a a'
| step_processSig msg a a' :
    takes (processSig msg) a a' -> step a a'
| step_processEncryptedSig encryptedSig theirMAC keys a a' :
    takes (processEncryptedSig encryptedSig theirMAC keys) a a' -> step a a'
| step_sendDHCommit conv conv' :
    takes sendDHCommit conv conv' -> step (ake conv) (ake conv').

(** A context is reachable when calls lead to it from a new context, in
    which neither secretExponent nor ourPublicValue is set. *)
Inductive reachable : AKE -> Prop :=
| reachable_new a :
    secretExponent (context a) = None ->
    ourPublicValue (context a) = None ->
    reachable a
| reachable_step a a' :
    reachable a -> step a a' -> reachable a'.

(** The two fields of the invariant. *)
Definition exponentFields (a : AKE) : option Z * option Z :=
  (secretExponent (context a), ourPublicValue (context a)).

(** [m] leaves secretExponent and ourPublicValue as they are. *)
Definition keepsExponent {A : Type} (m : M AKE A) : Prop :=
  forall a x a', m a = Return (x, a') -> exponentFields a' = exponentFields a.

(** The methods that draw the exponent set both fields, by
    setSecretExponent, or touch neither. *)
Definition setsExponent {A : Type} (m : M AKE A) : Prop :=
  forall a x a',
    m a = Return (x, a') ->
    exponentFields a' = exponentFields a \/
    exists val, exponentFields a' = (Some val, Some (modExp g1 val)).

End Reachability.

(** ** Concrete contexts and messages

    One run of the four messages between Bob (who commits) and Alice, with
    the stand-ins above; the theorems below are exercised on its states. *)
Module Run.
Import Doubles.

Definition noKeys : akeKeys := {| c := []; m1 := []; m2 := [] |}.

(** A fresh context: a random source and a long-term key, nothing else. *)
Definition fresh (rd : Reader) (priv : Z) : AKE :=
  {| context :=
       {| secretExponent := None; ourPublicValue := None;
          theirPublicValue := None; r := make 16; encryptedGx := [];
          hashedGx := make 32; sigKey := noKeys; ourKeyID := 1;
          theirKeyID := 0; ourKey := Some priv; theirKey := None;
          rand := rd; transport := tt |};
     revealKey := noKeys;
     ssid := make 8 |}.

Definition source (n : nat) (seed : Z) : Reader :=
  map (fun i => byteOf (Z.of_nat i * 37 + seed)) (seq 0 n).

(** The state a method leaves, and the message it returns. *)
Definition after {A : Type} (m : M AKE A) (a : AKE) : AKE :=
  match m a with
  | Return (_, a') => a'
  | Panic => a
  end.

Definition sent (m : M AKE (result bytes)) (a : AKE) : bytes :=
  match m a with
  | Return (Ok msg, _) => msg
  | _ => []
  end.

Definition bob0 : AKE := fresh (source 60 3) 5.
Definition alice0 : AKE := fresh (source 60 12) 9.

Definition commitMsg : bytes := sent dhCommitMessage bob0.
Definition bob1 : AKE := after dhCommitMessage bob0.
Definition alice1 : AKE := after (processDHCommit commitMsg) alice0.
Definition keyMsg : bytes := sent dhKeyMessage alice1.
Definition alice2 : AKE := after dhKeyMessage alice1.
Definition bob2 : AKE := after (processDHKey keyMsg) bob1.
Definition revealMsg : bytes := sent revealSigMessage bob2.
Definition bob3 : AKE := after revealSigMessage bob2.
Definition alice3 : AKE := after (processRevealSig revealMsg) alice2.
Definition sigMsg : bytes := sent sigMessage alice3.
Definition bob4 : AKE := after (processSig sigMsg) bob3.


(** Inputs around the run: contexts with too little randomness, a context
    whose commitment does not match, commitments to the value 1, a DHKey
    message carrying 1 and another carrying 5, and encrypted signatures
    with a byte appended or the last byte replaced. *)
Definition starved45 : AKE := fresh (source 45 3) 5.
Definition starved10 : AKE := fresh (source 10 3) 5.

Definition aliceWrongHash : AKE := on_context (set_hashedGx (make 32)) alice2.

Definition commitToOne (hashed : bytes) : AKE :=
  on_context
    (fun a => set_hashedGx hashed
                (set_encryptedGx (keystream (r (context bob3)) (putMPI [] 1)) a))
    alice2.

Definition aliceOne : AKE := commitToOne (digest (putMPI [] 1)).
Definition aliceOneWrongHash : AKE := commitToOne (make 32).

Definition revealBody : revealSig.t :=
  match deserializeRevealSig (skipn 3 revealMsg) with
  | Ok m => m
  | Err _ => {| revealSig.messageHeader := []; revealSig.r := [];
                revealSig.encryptedSig := []; revealSig.macSig := [] |}
  end.

Definition keyBody : dhKey.t :=
  match dhKey_deserialize (skipn 3 keyMsg) with
  | Ok m => m
  | Err _ => {| dhKey.messageHeader := []; dhKey.gy := None |}
  end.

Definition keyMsgOne : bytes := putMPI header 1.
Definition keyMsgFive : bytes := putMPI header 5.

Definition keyBodyFive : dhKey.t :=
  {| dhKey.messageHeader := []; dhKey.gy := Some 5 |}.

Definition sigBody : sig.t :=
  match deserializeSig (skipn 3 sigMsg) with
  | Ok m => m
  | Err _ => {| sig.messageHeader := []; sig.encryptedSig := [];
                sig.macSig := [] |}
  end.

Definition bobKeys : akeKeys := sigKey (context bob3).

Definition payload : bytes := keystream (c bobKeys) (sig.encryptedSig sigBody).


Definition spoiledSig : bytes :=
  keystream (c bobKeys) (firstn (length payload - 1) payload ++ [x00]).

Definition macOf (enc : bytes) : bytes :=
  firstn 20 (mac (m2 bobKeys) (putData [] enc)).

Definition conv0 : Conversation :=
  {| ake := bob0;
     state := authStateNone;
     keys := {| otherFields := (3, 4); oldMACKeys := [[x01; x02]] |} |}.

Definition conv1 : Conversation :=
  match sendDHCommit conv0 with
  | Return (_, conv) => conv
  | Panic => conv0
  end.

End Run.

(** ** Send and the heartbeat *)

(** The type msgState is declared outside the files at hand; Send names
    three of its values, and [msgStateOther] stands for any other. *)
Inductive msgState : Type :=
| plainText
| encrypted
| finished
| msgStateOther.

(** The two policy flags that Send asks for. *)
Inductive policy : Type :=
| requireEncryption
| sendWhitespaceTag.

Inductive messageFlag : Type :=
| messageFlagNormal
| messageFlagIgnoreUnreadable.

(** Modelled from the spec: the functions messageEvent... are declared
    outside the files at hand.  Section 6: the event sink is notified of
    an event, fire and forget; here the event is added to a log. *)
Inductive messageEvent : Type :=
| MessageEventEncryptionRequired
| MessageEventEncryptionError
| MessageEventConnectionEnded
| MessageEventHeartbeatSent.

(** heartbeatInterval = 60 * time.Second; a time.Time is a count of
    nanoseconds. *)
Definition heartbeatInterval : Z := 60 * 1000000000.

Record heartbeatContext : Type := {
  lastSent : Z
}.

Class ConversationTypes : Type := {
  policies : Type;
  dataMessage : Type;
  tlv : Type;
  (** what else a Conversation holds *)
  conversationRest : Type
}.

Section SessionState.
Context {T : ExternalTypes} {P : ConversationTypes}.

(** The part of a Conversation that Send and heartbeat.go touch, around
    the part that sendDHCommit touches.  [wallClock] gives the reading of
    each successive call of time.Now, [clockReads] counts the calls. *)
Record Session : Type := {
  conversation : Conversation;
  Policies : policies;
  msgStateOf : msgState;
  heartbeat : heartbeatContext;
  events : list messageEvent;
  wallClock : nat -> Z;
  clockReads : nat;
  rest : conversationRest
}.

Definition set_conversation (v : Conversation) (s : Session) : Session :=
  {| conversation := v; Policies := Policies s; msgStateOf := msgStateOf s;
     heartbeat := heartbeat s; events := events s; wallClock := wallClock s;
     clockReads := clockReads s; rest := rest s |}.

Definition set_heartbeat (v : heartbeatContext) (s : Session) : Session :=
  {| conversation := conversation s; Policies := Policies s;
     msgStateOf := msgStateOf s; heartbeat := v; events := events s;
     wallClock := wallClock s; clockReads := clockReads s; rest := rest s |}.

Definition set_events (v : list messageEvent) (s : Session) : Session :=
  {| conversation := conversation s; Policies := Policies s;
     msgStateOf := msgStateOf s; heartbeat := heartbeat s; events := v;
     wallClock := wallClock s; clockReads := clockReads s; rest := rest s |}.

Definition set_clockReads (v : nat) (s : Session) : Session :=
  {| conversation := conversation s; Policies := Policies s;
     msgStateOf := msgStateOf s; heartbeat := heartbeat s; events := events s;
     wallClock := wallClock s; clockReads := v; rest := rest s |}.

End SessionState.

(** What Send and heartbeat.go call and the files at hand do not define.
    The methods of the conversation may change all of it. *)
Class ConversationExternals {T : ExternalTypes} {P : ConversationTypes} : Type := {
  isOTREnabled : policies -> bool;
  has : policies -> policy -> bool;
  queryMessage : M Session bytes;
  appendWhitespaceTag : bytes -> M Session bytes;
  createSerializedDataMessage :
    bytes -> messageFlag -> list tlv -> M Session (list bytes * option error);
  (** a nil message is [None] *)
  genDataMsgWithFlag :
    option bytes -> messageFlag -> M Session (dataMessage * option error);
  dataMessage_serialize : dataMessage -> bytes
}.

Section SendAndHeartbeat.
Context {T : ExternalTypes} {E : Externals} {P : ConversationTypes}
        {C : ConversationExternals}.

(** time.Now() *)
Definition timeNow : M Session Z :=
  fun s => Return (wallClock s (clockReads s), set_clockReads (S (clockReads s)) s).

(** time.Time.Add and time.Time.Before *)
Definition timeAdd (t d : Z) : Z := t + d.
Definition timeBefore (t u : Z) : bool := Z.ltb t u.

Definition notify (e : messageEvent) : M Session unit :=
  modify (fun s => set_events (events s ++ [e]) s).

Definition updateLastSent : M Session unit :=
  now <- timeNow ;;
  modify (set_heartbeat {| lastSent := now |}).

(** [plain] and the message returned are nil when [None]. *)
Definition potentialHeartbeat (plain : option bytes)
    : M Session (option bytes * option error) :=
  match plain with
  | Some _ =>
      now <- timeNow ;;
      s <- get ;;
      if timeBefore (lastSent (heartbeat s)) (timeAdd now (- heartbeatInterval))
      then
        '(dataMsg, err) <- genDataMsgWithFlag None messageFlagIgnoreUnreadable ;;
        match err with
        | Some err => ret (None, Some err)
        | None =>
            '(toSend, err) <- within conversation set_conversation
                                (wrapMessageHeader_c msgTypeData
                                   (dataMessage_serialize dataMsg)) ;;
            match err with
            | Some err => ret (None, Some err)
            | None =>
                updateLastSent ;;
                notify MessageEventHeartbeatSent ;;
                ret (Some toSend, None)
            end
        end
      else ret (None, None)
  | None => ret (None, None)
  end.

Definition maybeHeartbeat (plain toSend : option bytes) (err : option error)
    : M Session (option bytes * option bytes * option bytes * option error) :=
  match err with
  | Some err => ret (None, None, None, Some err)
  | None =>
      '(tsExtra, e) <- potentialHeartbeat plain ;;
      ret (plain, toSend, tsExtra, e)
  end.

(** Send works on a copy of [m], which it wipes when it returns; what it
    returns are fresh copies.  A nil list of messages is []. *)
Definition Send (m : bytes) : M Session (list bytes * option error) :=
  let message := m in
  s <- get ;;
  if negb (isOTREnabled (Policies s)) then ret ([message], None)
  else
    match msgStateOf s with
    | plainText =>
        if has (Policies s) requireEncryption
        then
          notify MessageEventEncryptionRequired ;;
          updateLastSent ;;
          q <- queryMessage ;;
          ret ([q], None)
        else
          if has (Policies s) sendWhitespaceTag
          then
            message <- appendWhitespaceTag message ;;
            ret ([message], None)
          else ret ([message], None)
    | encrypted =>
        '(result, err) <- createSerializedDataMessage message messageFlagNormal [] ;;
        match err with
        | Some _ =>
            notify MessageEventEncryptionError ;;
            ret (result, err)
        | None => ret (result, err)
        end
    | finished =>
        notify MessageEventConnectionEnded ;;
        ret ([], Some (errorsNew
          "otr: cannot send message because secure conversation has finished"))
    | msgStateOther =>
        ret ([], Some (errorsNew "otr: cannot send message in current state"))
    end.

End SendAndHeartbeat.

(** ** Stand-ins for the conversation, and more inputs *)
Module ConversationDoubles.
Import Doubles Run.

Definition policy_eqb (f g : policy) : bool :=
  match f, g with
  | requireEncryption, requireEncryption => true
  | sendWhitespaceTag, sendWhitespaceTag => true
  | _, _ => false
  end.

#[export] Instance conversationTypes : ConversationTypes := {|
  policies := bool * list policy;
  dataMessage := bytes;
  tlv := unit;
  conversationRest := bool
|}.

(** Data messages can be made when the flag in [rest] says that the data
    keys are there. *)
#[export] Instance conversationDoubles : ConversationExternals := {|
  isOTREnabled := fun pol => fst pol;
  has := fun pol f => existsb (policy_eqb f) (snd pol);
  queryMessage := ret [x3f; x4f; x54; x52; x76; x32; x3f];
  appendWhitespaceTag := fun msg => ret (msg ++ [x20; x09]);
  createSerializedDataMessage := fun msg _ _ s =>
    if rest s
    then Return (([x3f :: keystream [x2a] msg], None), s)
    else Return (([], Some (errorsNew "otr: no data keys")), s);
  genDataMsgWithFlag := fun plain _ s =>
    if rest s
    then Return ((x00 :: match plain with Some b => b | None => [] end, None), s)
    else Return (([], Some (errorsNew "otr: no data keys")), s);
  dataMessage_serialize := fun d => d
|}.

(** A session whose clock reads 100 s, 101 s, ... *)
Definition session (pol : bool * list policy) (st : msgState) (sent : Z)
    (ready : bool) : Session :=
  {| conversation := conv0;
     Policies := pol;
     msgStateOf := st;
     heartbeat := {| lastSent := sent |};
     events := [];
     wallClock := fun n => (100 + Z.of_nat n) * 1000000000;
     clockReads := 0;
     rest := ready |}.

Definition hello : bytes := [x68; x65; x6c; x6c; x6f].

(** Two contexts with the exponents 5 and 7 and each other's public
    value. *)
Definition withExponent (x gy : Z) : AKE :=
  on_context (set_theirPublicValue (Some gy))
    (after (promoted (setSecretExponent x)) bob0).

Definition five : AKE := withExponent 5 (modExp g1 7).
Definition seven : AKE := withExponent 7 (modExp g1 5).

(** Bob with the keys derived, before he signs; Bob without randomness. *)
Definition bobDerived : AKE :=
  after (s <- calcDHSharedSecret ;; calcAKEKeys s) bob2.

Definition bobNoRandom : AKE := on_context (set_rand []) bob2.

(** The reveal signature message with its MAC replaced. *)
Definition revealMsgWrongMac : bytes :=
  firstn (length revealMsg - 20) revealMsg ++ repeat x00 20.

Definition aliceWrongMac : AKE := after (processRevealSig revealMsgWrongMac) alice2.

Definition convStarved : Conversation :=
  {| ake := starved45; state := authStateNone; keys := keys conv0 |}.

Definition convStarved1 : Conversation :=
  match sendDHCommit convStarved with
  | Return (_, conv) => conv
  | Panic => convStarved
  end.

End ConversationDoubles.
(** ** processEncryptedSig after its MAC comparison *)

Section AfterMACCheck.
Context {T : ExternalTypes} {E : Externals}.

(** What processEncryptedSig does once the comparison of line 278 has let
    the MAC through (lines 282 to 313): the decryption, the key and the key
    id, the verification of the signature. *)
Definition processEncryptedSig_afterMAC (encryptedSig : bytes) (keys : akeKeys)
    : M AKE (option error) :=
  let '(decryptedSig, err) := decrypt (c keys) encryptedSig in
  match err with
  | Some err => ret (Some err)
  | None =>
      let '(nextPoint, key, ok1) := PublicKey_parse decryptedSig in
      modify (on_context (set_theirKey (Some key))) ;;
      let '(_, keyID, ok2) := extractWord nextPoint in
      if negb ok1 || negb ok2 || Nat.ltb (length nextPoint) 4
      then ret (Some errCorruptEncryptedSignature)
      else
        let sig := skipn 4 nextPoint in
        ake <- get ;;
        one <- deref (theirPublicValue (context ake)) ;;
        two <- deref (ourPublicValue (context ake)) ;;
        let verifyData := appendAll one two key keyID in
        let mb := sumHMAC (m1 keys) verifyData in
        let '(rest, ok) := PublicKey_verify key mb sig in
        if negb ok
        then ret (Some (errorsNew "bad signature in encrypted signature"))
        else if Nat.ltb 0 (length rest)
             then ret (Some errCorruptEncryptedSignature)
             else
               modify (on_context (set_theirKeyID keyID)) ;;
               ret None
  end.

End AfterMACCheck.

(** ** Messages that fail one of the two checks of processEncryptedSig *)

Module Tampered.
Import Doubles Run.

(** The signature message with its MAC replaced, and the one whose
    signature has its last byte replaced and whose MAC is made anew. *)
Definition sigMsgWrongMac : bytes :=
  firstn (length sigMsg - 20) sigMsg ++ repeat x00 20.

Definition sigMsgSpoiled : bytes :=
  putData header spoiledSig ++ macOf spoiledSig.

(** The reveal signature message whose signature has its last byte
    replaced and whose MAC is made anew under revealKey. *)
Definition revealPayload : bytes :=
  keystream (c (revealKey bob3)) (revealSig.encryptedSig revealBody).

Definition spoiledRevealSig : bytes :=
  keystream (c (revealKey bob3))
    (firstn (length revealPayload - 1) revealPayload ++ [x00]).

Definition revealMsgSpoiled : bytes :=
  putData (putData header (revealSig.r revealBody)) spoiledRevealSig
    ++ firstn 20 (mac (m2 (revealKey bob3)) (putData [] spoiledRevealSig)).

(** Alice with the revealed value and the keys derived from it, before the
    signature is looked at. *)
Definition aliceDerived : AKE :=
  after (modify (on_context (set_theirPublicValue (ourPublicValue (context bob1)))) ;;
         s <- calcDHSharedSecret ;;
         calcAKEKeys s) alice2.

End Tampered.

(** ** Facts about the library functions *)

Lemma byteZ_inj (a b : byte) : byteZ a = byteZ b -> a = b.
Proof.
  unfold byteZ. intros H. apply N2Z.inj in H.
  assert (E : Byte.of_N (Byte.to_N a) = Byte.of_N (Byte.to_N b)) by (f_equal; assumption).
  rewrite !Byte.of_to_N in E. congruence.
Qed.

Lemma byteZ_range (b : byte) : 0 <= byteZ b < 256.
Proof.
  unfold byteZ. pose proof (Byte.to_N_bounded b). lia.
Qed.

Lemma ctLoop_nonneg (x y : bytes) : forall v, 0 <= v -> 0 <= ctLoop v x y.
Proof.
  revert y. induction x as [|a x IH]; intros [|b y] v Hv; simpl; auto.
  apply IH. apply Z.lor_nonneg. split; [assumption|].
  apply Z.lxor_nonneg. pose proof (byteZ_range a). pose proof (byteZ_range b). lia.
Qed.

Lemma ctLoop_lt_256 (x y : bytes) : forall v, 0 <= v < 256 -> ctLoop v x y < 256.
Proof.
  revert y. induction x as [|a x IH]; intros [|b y] v Hv; simpl; try lia.
  apply IH.
  pose proof (byteZ_range a) as Ha. pose proof (byteZ_range b) as Hb.
  assert (Hx : 0 <= Z.lxor (byteZ a) (byteZ b)) by (apply Z.lxor_nonneg; lia).
  assert (Ho : 0 <= Z.lor v (Z.lxor (byteZ a) (byteZ b))) by (apply Z.lor_nonneg; lia).
  split; [assumption|].
  destruct (Z.eq_dec (Z.lor v (Z.lxor (byteZ a) (byteZ b))) 0) as [E|E]; [lia|].
  apply Z.log2_lt_pow2 with (b := 8); [lia|].
  rewrite Z.log2_lor by lia.
  apply Z.max_lub_lt.
  - destruct (Z.eq_dec v 0) as [->|]; [simpl; lia|]. apply Z.log2_lt_pow2; lia.
  - eapply Z.le_lt_trans; [apply Z.log2_lxor; lia|].
    apply Z.max_lub_lt.
    + destruct (Z.eq_dec (byteZ a) 0) as [->|]; [simpl; lia|]. apply Z.log2_lt_pow2; lia.
    + destruct (Z.eq_dec (byteZ b) 0) as [->|]; [simpl; lia|]. apply Z.log2_lt_pow2; lia.
Qed.

Lemma ctLoop_zero (x y : bytes) :
  length x = length y ->
  forall v, 0 <= v -> (ctLoop v x y = 0 <-> v = 0 /\ x = y).
Proof.
  revert y. induction x as [|a x IH]; intros [|b y] Hlen v Hv; simpl in *;
    try discriminate.
  - intuition.
  - injection Hlen as Hlen.
    pose proof (byteZ_range a) as Ha. pose proof (byteZ_range b) as Hb.
    assert (Hx : 0 <= Z.lxor (byteZ a) (byteZ b)) by (apply Z.lxor_nonneg; lia).
    rewrite (IH y Hlen) by (apply Z.lor_nonneg; lia).
    rewrite Z.lor_eq_0_iff, Z.lxor_eq_0_iff.
    split.
    + intros [[-> Hab] ->]. apply byteZ_inj in Hab. subst. auto.
    + intros [-> Hxy]. injection Hxy as -> ->. auto.
Qed.

Lemma ConstantTimeByteEq_zero (v : Z) :
  0 <= v < 256 -> ConstantTimeByteEq v 0 = if Z.eqb v 0 then 1 else 0.
Proof.
  intros Hv. unfold ConstantTimeByteEq. rewrite Z.lxor_0_r.
  destruct (Z.eqb_spec v 0) as [->|Hne].
  - reflexivity.
  - rewrite Z.mod_small by lia.
    rewrite Z.shiftr_div_pow2 by lia.
    apply Z.div_small. lia.
Qed.

(** ConstantTimeCompare decides equality of the two slices. *)
Lemma ConstantTimeCompare_spec (x y : bytes) :
  ConstantTimeCompare x y = if bytes_eqb x y then 1 else 0.
Proof.
  unfold ConstantTimeCompare, bytes_eqb.
  destruct (Nat.eqb_spec (length x) (length y)) as [Hlen|Hlen]; simpl.
  - rewrite ConstantTimeByteEq_zero
      by (split; [apply ctLoop_nonneg; lia | apply ctLoop_lt_256; lia]).
    pose proof (ctLoop_zero x y Hlen (v := 0) (Z.le_refl 0)) as Hz.
    destruct (list_eq_dec byte_eq_dec x y) as [E|E];
      destruct (Z.eqb_spec (ctLoop 0 x y) 0) as [L|L]; try reflexivity.
    + exfalso. apply L. apply Hz. auto.
    + exfalso. apply E. apply Hz. assumption.
  - destruct (list_eq_dec byte_eq_dec x y) as [E|E]; [|reflexivity].
    subst. contradiction.
Qed.


Lemma ConstantTimeCompare_neq (x y : bytes) :
  ConstantTimeCompare x y = 0 <-> x <> y.
Proof.
  rewrite ConstantTimeCompare_spec. unfold bytes_eqb.
  destruct (list_eq_dec byte_eq_dec x y); split; intros; try congruence; try lia.
Qed.

(** ** Properties of ake.go *)

Section Proofs.
Context {T : ExternalTypes} {E : Externals}.

#[local] Arguments skipn : simpl never.
#[local] Arguments firstn : simpl never.
#[local] Arguments String.append : simpl never.

Ltac monad := unfold bind, get, modify, ret, deref, panic, promoted, within; simpl.


Lemma ensureValidMessage_ok (ake : AKE) (msg body : bytes) :
  ensureValidMessage ake msg = Ok body ->
  (headerLen (transport (context ake)) <= length msg)%nat /\
  body = skipn (headerLen (transport (context ake))) msg.
Proof.
  unfold ensureValidMessage.
  destruct (Nat.ltb_spec (length msg) (headerLen (transport (context ake))));
    intros H0; inversion H0. split; [lia | reflexivity].
Qed.


Lemma chainErrors_second {A : Type} (f1 : bytes -> result bytes)
    (f2 : bytes -> result A) (msg res : bytes) :
  f1 msg = Ok res -> chainErrors f1 f2 msg = f2 res.
Proof. intros H. unfold chainErrors. rewrite H. reflexivity. Qed.

Lemma chainErrors_ok {A : Type} (f1 : bytes -> result bytes)
    (f2 : bytes -> result A) (msg : bytes) (a : A) :
  chainErrors f1 f2 msg = Ok a ->
  exists res, f1 msg = Ok res /\ f2 res = Ok a.
Proof.
  unfold chainErrors. destruct (f1 msg) as [res|e]; intros H; [|discriminate].
  exists res. auto.
Qed.

(** The comparison of line 278 lets through exactly the receiver's own MAC. *)
Lemma mac_check (myMAC theirMAC : bytes) :
  negb (Nat.eqb (length myMAC) (length theirMAC))
    || Z.eqb (ConstantTimeCompare myMAC theirMAC) 0 = false
  <-> theirMAC = myMAC.
Proof.
  rewrite ConstantTimeCompare_spec. unfold bytes_eqb.
  destruct (list_eq_dec byte_eq_dec myMAC theirMAC) as [->|Hne].
  - rewrite Nat.eqb_refl. simpl. tauto.
  - split; [|congruence].
    destruct (Nat.eqb (length myMAC) (length theirMAC)); simpl; discriminate.
Qed.

Lemma checkDecryptedGx_none (decryptedGx hashed : bytes) :
  checkDecryptedGx decryptedGx hashed = None <-> sha256Sum decryptedGx = hashed.
Proof.
  unfold checkDecryptedGx. rewrite ConstantTimeCompare_spec. unfold bytes_eqb.
  destruct (list_eq_dec byte_eq_dec (sha256Sum decryptedGx) hashed); simpl;
    split; intros; congruence.
Qed.

Lemma checkDecryptedGx_some (decryptedGx hashed : bytes) :
  sha256Sum decryptedGx <> hashed ->
  checkDecryptedGx decryptedGx hashed =
    Some (errorsNew "otr: bad commit MAC in reveal signature message").
Proof.
  intros H. unfold checkDecryptedGx. rewrite ConstantTimeCompare_spec.
  unfold bytes_eqb.
  destruct (list_eq_dec byte_eq_dec (sha256Sum decryptedGx) hashed);
    [contradiction | reflexivity].
Qed.


(** C1: processRevealSig decrypts the stored encryptedGx with the revealed
    r and compares SHA-256 of the result with the stored hashedGx; when
    they differ it returns the commitment error and the context is
    unchanged, so theirPublicValue is not set.  Whenever it changes the
    context or goes as far as the key derivation, the comparison has
    succeeded. *)
Theorem processRevealSig_checks_commitment (ake : AKE) (msg : bytes) :
  (forall body m decryptedGx,
     ensureValidMessage ake msg = Ok body ->
     revealSig_deserialize body = Ok m ->
     decrypt (revealSig.r m) (encryptedGx (context ake)) = (decryptedGx, None) ->
     sha256Sum decryptedGx <> hashedGx (context ake) ->
     processRevealSig msg ake =
       Return (Some (errorsNew "otr: bad commit MAC in reveal signature message"),
               ake))
  /\
  (forall out,
     processRevealSig msg ake = out ->
     (forall err, out <> Return (err, ake)) ->
     exists body m decryptedGx,
       ensureValidMessage ake msg = Ok body /\
       revealSig_deserialize body = Ok m /\
       decrypt (revealSig.r m) (encryptedGx (context ake)) = (decryptedGx, None) /\
       sha256Sum decryptedGx = hashedGx (context ake)).
Proof.
  split.
  - intros body m decryptedGx Hvalid Hdes Hdec Hneq.
    unfold processRevealSig. monad.
    rewrite (chainErrors_second _ _ _ Hvalid), Hdes, Hdec.
    rewrite (checkDecryptedGx_some _ Hneq). reflexivity.
  - intros out Hout Hchanged.
    unfold processRevealSig in Hout. monad. revert Hout. monad.
    destruct (chainErrors (ensureValidMessage ake) revealSig_deserialize msg)
      as [m|e] eqn:Hchain.
    2:{ intros <-. exfalso. eapply Hchanged. reflexivity. }
    apply chainErrors_ok in Hchain. destruct Hchain as (body & Hvalid & Hdes).
    destruct (decrypt (revealSig.r m) (encryptedGx (context ake)))
      as [decryptedGx [e|]] eqn:Hdec.
    { intros <-. exfalso. eapply Hchanged. reflexivity. }
    destruct (checkDecryptedGx decryptedGx (hashedGx (context ake)))
      as [e|] eqn:Hcheck.
    { intros <-. exfalso. eapply Hchanged. reflexivity. }
    intros _. exists body, m, decryptedGx.
    apply checkDecryptedGx_none in Hcheck. auto.
Qed.

(** C3: on a well-formed DHKey message, a context that already holds
    theirPublicValue is left as it is, isSame tells whether the incoming gy
    equals the stored value and the error is nil also when they differ; a
    context without theirPublicValue stores the incoming gy. *)
Theorem processDHKey_keeps_first_gy (ake : AKE) (msg body : bytes) (m : dhKey.t) :
  ensureValidMessage ake msg = Ok body ->
  dhKey_deserialize body = Ok m ->
  exists gy,
    dhKey.gy m = Some gy /\
    (forall theirs,
       theirPublicValue (context ake) = Some theirs ->
       exists isSame,
         processDHKey msg ake = Return ((isSame, None), ake) /\
         (isSame = true <-> gy = theirs)) /\
    (theirPublicValue (context ake) = None ->
       processDHKey msg ake =
         Return ((false, None), on_context (set_theirPublicValue (Some gy)) ake)).
Proof.
  intros Hvalid Hdes.
  assert (Hgy : exists gy, dhKey.gy m = Some gy).
  { unfold dhKey_deserialize in Hdes.
    destruct (extractMPI body) as [[rest gy] ok].
    destruct (negb ok || Nat.ltb 0 (length rest)); [discriminate|].
    destruct (lt gy g1 || gt gy pMinusTwo); [discriminate|].
    inversion Hdes. simpl. eauto. }
  destruct Hgy as [gy Hgy]. exists gy. split; [assumption|].
  unfold processDHKey. monad.
  rewrite (chainErrors_second _ _ _ Hvalid), Hdes.
  split.
  - intros theirs Htheirs. rewrite Htheirs, Hgy. simpl.
    exists (eq theirs gy). split; [reflexivity|].
    unfold eq. rewrite Z.eqb_eq. split; congruence.
  - intros Hnone. rewrite Hnone, Hgy. reflexivity.
Qed.

Lemma ReadFull_short (rd : Reader) (buf : bytes) :
  (length rd < length buf)%nat ->
  exists buf' e, ReadFull rd buf = ((buf', Some e), []).
Proof.
  intros H. unfold ReadFull.
  apply Nat.leb_gt in H. rewrite H. eauto.
Qed.

Lemma ReadFull_enough (rd : Reader) (buf : bytes) :
  (length buf <= length rd)%nat ->
  ReadFull rd buf = ((firstn (length buf) rd, None), skipn (length buf) rd).
Proof.
  intros H. unfold ReadFull.
  apply Nat.leb_le in H. rewrite H. reflexivity.
Qed.

Lemma ReadFull_ok (rd : Reader) (buf buf' : bytes) (rd' : Reader) :
  ReadFull rd buf = ((buf', None), rd') ->
  (length buf <= length rd)%nat /\
  buf' = firstn (length buf) rd /\ rd' = skipn (length buf) rd.
Proof.
  unfold ReadFull.
  destruct (Nat.leb_spec (length buf) (length rd)); intros H0; inversion H0.
  auto.
Qed.

Lemma make_length (n : nat) : length (make n) = n.
Proof. apply repeat_length. Qed.

(** What randMPI does to the context, by the supply of the random source. *)
Lemma randMPI_short (buf : bytes) (a : akeContext) :
  (length (rand a) < length buf)%nat ->
  randMPI buf a = Return ((None, false), set_rand [] a).
Proof.
  intros H. unfold randMPI. monad.
  destruct (ReadFull_short _ _ H) as (buf' & e & ->). reflexivity.
Qed.

Lemma randMPI_enough (buf : bytes) (a : akeContext) :
  (length buf <= length (rand a))%nat ->
  randMPI buf a =
    Return ((Some (SetBytes (firstn (length buf) (rand a))), true),
            set_rand (skipn (length buf) (rand a)) a).
Proof.
  intros H. unfold randMPI. monad.
  rewrite (ReadFull_enough _ _ H). reflexivity.
Qed.

(** C6: when the random source has fewer bytes than the 40 of the exponent,
    or than the 16 of r after them, dhCommitMessage returns
    errShortRandomRead and no message; so does dhKeyMessage for its 40
    bytes.  A message is returned only when the source had all the bytes,
    and then the exponent and r are exactly the bytes read. *)
Theorem short_random_read_fails (ake : AKE) :
  length (r (context ake)) = 16%nat ->
  ((length (rand (context ake)) < 56)%nat ->
     exists ake', dhCommitMessage ake = Return (Err errShortRandomRead, ake'))
  /\
  ((length (rand (context ake)) < 40)%nat ->
     exists ake', dhKeyMessage ake = Return (Err errShortRandomRead, ake'))
  /\
  (forall msg ake',
     dhCommitMessage ake = Return (Ok msg, ake') ->
     (56 <= length (rand (context ake)))%nat /\
     secretExponent (context ake') =
       Some (SetBytes (firstn 40 (rand (context ake)))) /\
     r (context ake') = firstn 16 (skipn 40 (rand (context ake))))
  /\
  (forall msg ake',
     dhKeyMessage ake = Return (Ok msg, ake') ->
     (40 <= length (rand (context ake)))%nat /\
     secretExponent (context ake') =
       Some (SetBytes (firstn 40 (rand (context ake))))).
Proof.
  intros Hr.
  destruct (Nat.lt_ge_cases (length (rand (context ake))) 40) as [H40|H40].
  - (* the exponent cannot be read *)
    assert (Hc : exists ake', dhCommitMessage ake = Return (Err errShortRandomRead, ake')).
    { unfold dhCommitMessage. monad.
      rewrite randMPI_short by (rewrite make_length; simpl; lia).
      simpl. eauto. }
    assert (Hk : exists ake', dhKeyMessage ake = Return (Err errShortRandomRead, ake')).
    { unfold dhKeyMessage. monad.
      rewrite randMPI_short by (rewrite make_length; simpl; lia).
      simpl. eauto. }
    destruct Hc as [ac Hc], Hk as [ak Hk].
    split; [eauto | split; [eauto | split]];
      intros msg ake' H; rewrite ?Hc, ?Hk in H; discriminate.
  - assert (Hk : dhKeyMessage ake =
        Return (Ok (serializeDHKey
                  (on_context (fun a =>
                     set_ourPublicValue
                       (Some (modExp g1 (SetBytes (firstn 40 (rand (context ake))))))
                       (set_secretExponent
                          (Some (SetBytes (firstn 40 (rand (context ake)))))
                          (set_rand (skipn 40 (rand (context ake))) a))) ake)),
                on_context (fun a =>
                     set_ourPublicValue
                       (Some (modExp g1 (SetBytes (firstn 40 (rand (context ake))))))
                       (set_secretExponent
                          (Some (SetBytes (firstn 40 (rand (context ake)))))
                          (set_rand (skipn 40 (rand (context ake))) a))) ake)).
    { unfold dhKeyMessage. monad.
      rewrite randMPI_enough by (rewrite make_length; simpl; lia).
      rewrite make_length. reflexivity. }
    split; [|split; [|split]].
    + intros H56. unfold dhCommitMessage. monad.
      rewrite randMPI_enough by (rewrite make_length; simpl; lia).
      rewrite make_length. simpl.
      destruct (ReadFull_short (skipn 40 (rand (context ake))) (r (context ake)))
        as (buf' & e & ->).
      { rewrite length_skipn. lia. }
      simpl. eauto.
    + intros H. lia.
    + intros msg ake'. unfold dhCommitMessage. monad.
      rewrite randMPI_enough by (rewrite make_length; simpl; lia).
      rewrite make_length. simpl.
      destruct (ReadFull (skipn 40 (rand (context ake))) (r (context ake)))
        as [[buf' [e|]] rd'] eqn:Hread; simpl; [discriminate|].
      apply ReadFull_ok in Hread. destruct Hread as (Hlen & -> & ->).
      rewrite length_skipn in Hlen. rewrite Hr in *.
      destruct (encrypt _ _) as [enc e]. simpl.
      intros H. inversion H; subst; simpl.
      repeat split; try reflexivity. lia.
    + intros msg ake' H. rewrite Hk in H. inversion H; subst; simpl.
      split; [lia | reflexivity].
Qed.

(** *** The two exponent fields under the operations *)

Ltac crunch H :=
  repeat (simpl in H;
    match type of H with
    | Panic = Return _ => discriminate H
    | Return _ = Return _ => inversion H; subst; clear H
    | context [match ?x with _ => _ end] =>
        lazymatch x with
        | context [match _ with _ => _ end] => fail
        | _ => destruct x eqn:?
        end
    end).

Lemma calcAKEKeys_keeps (s : Z) : keepsExponent (calcAKEKeys s).
Proof.
  intros a x a' H. unfold calcAKEKeys in H. monad. revert H. monad. intros H.
  crunch H. reflexivity.
Qed.

Lemma calcDHSharedSecret_keeps : keepsExponent calcDHSharedSecret.
Proof.
  intros a x a' H. unfold calcDHSharedSecret in H. revert H. monad. intros H.
  crunch H. reflexivity.
Qed.

Lemma calcXb_keeps (key : akeKeys) (mb : bytes) : keepsExponent (calcXb key mb).
Proof.
  intros a x a' H. unfold calcXb in H. revert H. monad. intros H.
  crunch H; reflexivity.
Qed.

Lemma generateEncryptedSignature_keeps (key : akeKeys) :
  keepsExponent (generateEncryptedSignature key).
Proof.
  intros a x a' H. unfold generateEncryptedSignature, calcXb in H.
  revert H. monad. intros H.
  crunch H; reflexivity.
Qed.

Lemma processEncryptedSig_keeps (encryptedSig theirMAC : bytes) (keys : akeKeys) :
  keepsExponent (processEncryptedSig encryptedSig theirMAC keys).
Proof.
  intros a x a' H. unfold processEncryptedSig in H. revert H. monad. intros H.
  crunch H; reflexivity.
Qed.

Lemma revealSigMessage_keeps : keepsExponent revealSigMessage.
Proof.
  intros a x a' H.
  unfold revealSigMessage, calcDHSharedSecret, calcAKEKeys,
    generateEncryptedSignature, calcXb in H.
  revert H. monad. intros H. crunch H; reflexivity.
Qed.

Lemma sigMessage_keeps : keepsExponent sigMessage.
Proof.
  intros a x a' H.
  unfold sigMessage, calcDHSharedSecret, calcAKEKeys,
    generateEncryptedSignature, calcXb in H.
  revert H. monad. intros H. crunch H; reflexivity.
Qed.

Lemma processDHCommit_keeps (msg : bytes) : keepsExponent (processDHCommit msg).
Proof.
  intros a x a' H. unfold processDHCommit in H.
  revert H. monad. intros H. crunch H; reflexivity.
Qed.

Lemma processDHKey_keeps (msg : bytes) : keepsExponent (processDHKey msg).
Proof.
  intros a x a' H. unfold processDHKey in H.
  revert H. monad. intros H. crunch H; reflexivity.
Qed.

Ltac through_processEncryptedSig :=
  try reflexivity;
  match goal with
  | Hp : processEncryptedSig _ _ _ _ = Return _ |- _ =>
      apply processEncryptedSig_keeps in Hp;
      unfold exponentFields in *; simpl in *; congruence
  end.

Lemma processSig_keeps (msg : bytes) : keepsExponent (processSig msg).
Proof.
  intros a x a' H. unfold processSig in H. revert H. monad. intros H.
  crunch H; through_processEncryptedSig.
Qed.

Lemma processRevealSig_keeps (msg : bytes) : keepsExponent (processRevealSig msg).
Proof.
  intros a x a' H.
  unfold processRevealSig, calcDHSharedSecret, calcAKEKeys in H.
  revert H. monad. intros H.
  crunch H; through_processEncryptedSig.
Qed.

Lemma setSecretExponent_sets (val : Z) : setsExponent (promoted (setSecretExponent val)).
Proof.
  intros a x a' H. unfold setSecretExponent in H. revert H. monad.
  intros H. inversion H. right. exists val. reflexivity.
Qed.

Lemma dhCommitMessage_sets : setsExponent dhCommitMessage.
Proof.
  intros a x a' H. unfold dhCommitMessage, randMPI, setSecretExponent in H.
  revert H. monad. intros H.
  crunch H; try (left; reflexivity); right; eexists; reflexivity.
Qed.

Lemma dhKeyMessage_sets : setsExponent dhKeyMessage.
Proof.
  intros a x a' H. unfold dhKeyMessage, randMPI, setSecretExponent in H.
  revert H. monad. intros H.
  crunch H; try (left; reflexivity); right; eexists; reflexivity.
Qed.

Lemma sendDHCommit_sets (conv conv' : Conversation) (x : result bytes) :
  sendDHCommit conv = Return (x, conv') ->
  exponentFields (ake conv') = exponentFields (ake conv) \/
  exists val, exponentFields (ake conv') = (Some val, Some (modExp g1 val)).
Proof.
  unfold sendDHCommit, wrapMessageHeader_c. monad.
  destruct (dhCommitMessage (ake conv)) as [|[res a1]] eqn:Hc; [discriminate|].
  apply dhCommitMessage_sets in Hc.
  destruct res as [toSend|e]; simpl.
  - destruct (wrapMessageHeader _ _ _) as [[wrapped [e|]] t]; simpl;
      intros H; inversion H; subst; exact Hc.
  - intros H; inversion H; subst; exact Hc.
Qed.

Lemma modExp_spec (g x : Z) : p <> 0 -> modExp g x = (g ^ x) mod p.
Proof. intros Hp. unfold modExp. apply Zpow_mod_correct. assumption. Qed.

Lemma kept_invariant (a a' : AKE) :
  exponentFields a' = exponentFields a ->
  exponentInvariant (context a) -> exponentInvariant (context a').
Proof.
  unfold exponentFields, exponentInvariant. intros H. inversion H as [[H1 H2]].
  rewrite H1, H2. auto.
Qed.

Lemma set_invariant (a a' : AKE) :
  p <> 0 ->
  (exponentFields a' = exponentFields a \/
   exists val, exponentFields a' = (Some val, Some (modExp g1 val))) ->
  exponentInvariant (context a) -> exponentInvariant (context a').
Proof.
  intros Hp [H|[val H]] Hinv.
  - eapply kept_invariant; eassumption.
  - unfold exponentFields, exponentInvariant in *. inversion H as [[H1 H2]].
    rewrite H1, H2. apply modExp_spec. assumption.
Qed.

Lemma step_invariant (a a' : AKE) :
  p <> 0 -> step a a' ->
  exponentInvariant (context a) -> exponentInvariant (context a').
Proof.
  intros Hp Hstep.
  destruct Hstep as
    [ s a a' [x H] | val a a' [x H] | a a' [x H] | key a a' [x H]
    | key mb a a' [x H] | a a' [x H] | a a' [x H] | a a' [x H] | a a' [x H]
    | msg a a' [x H] | msg a a' [x H] | msg a a' [x H] | msg a a' [x H]
    | enc mac keys a a' [x H] | conv conv' [x H] ].
  - apply kept_invariant. eapply calcAKEKeys_keeps; eassumption.
  - apply set_invariant; [assumption|]. eapply setSecretExponent_sets; eassumption.
  - apply kept_invariant. eapply calcDHSharedSecret_keeps; eassumption.
  - apply kept_invariant. eapply generateEncryptedSignature_keeps; eassumption.
  - apply kept_invariant. eapply calcXb_keeps; eassumption.
  - apply set_invariant; [assumption|]. eapply dhCommitMessage_sets; eassumption.
  - apply set_invariant; [assumption|]. eapply dhKeyMessage_sets; eassumption.
  - apply kept_invariant. eapply revealSigMessage_keeps; eassumption.
  - apply kept_invariant. eapply sigMessage_keeps; eassumption.
  - apply kept_invariant. eapply processDHCommit_keeps; eassumption.
  - apply kept_invariant. eapply processDHKey_keeps; eassumption.
  - apply kept_invariant. eapply processRevealSig_keeps; eassumption.
  - apply kept_invariant. eapply processSig_keeps; eassumption.
  - apply kept_invariant. eapply processEncryptedSig_keeps; eassumption.
  - apply set_invariant; [assumption|]. eapply sendDHCommit_sets; eassumption.
Qed.

(** C8: in every context reached from a new one by the operations of the
    AKE, secretExponent and ourPublicValue are both unset or both set, and
    when set ourPublicValue is g1 to the power secretExponent modulo the
    prime; each operation preserves this. *)
Theorem exponent_and_public_value_set_together (a : AKE) :
  p <> 0 ->
  reachable a ->
  exponentInvariant (context a) /\
  (forall a', step a a' -> exponentInvariant (context a')).
Proof.
  intros Hp Hreach.
  assert (Hinv : exponentInvariant (context a)).
  { induction Hreach as [a H1 H2 | a a' Hreach IH Hstep].
    - unfold exponentInvariant. rewrite H1, H2. exact I.
    - eapply step_invariant; eassumption. }
  split; [exact Hinv|].
  intros a' Hstep. eapply step_invariant; eassumption.
Qed.

(** C10: when sendDHCommit succeeds, the state is authStateAwaitingDHKey
    and the key-management context is a new one whose fields are zero but
    for oldMACKeys, which is that of the context before. *)
Theorem sendDHCommit_resets_keys (conv conv' : Conversation) (toSend : bytes) :
  sendDHCommit conv = Return (Ok toSend, conv') ->
  state conv' = authStateAwaitingDHKey /\
  keys conv' = {| otherFields := zeroKeyFields;
                  oldMACKeys := oldMACKeys (keys conv) |}.
Proof.
  unfold sendDHCommit, wrapMessageHeader_c. monad.
  destruct (dhCommitMessage (ake conv)) as [|[[msg|e] a1]]; simpl;
    try discriminate.
  destruct (wrapMessageHeader _ _ _) as [[wrapped [e|]] t]; simpl;
    try discriminate.
  intros H. inversion H; subst. simpl. auto.
Qed.



Lemma processEncryptedSig_bad_mac
    (ake : AKE) (encryptedSig theirMAC : bytes) (keys : akeKeys) :
  theirMAC <> firstn 20 (sumHMAC (m2 keys) (appendData [] encryptedSig)) ->
  processEncryptedSig encryptedSig theirMAC keys ake =
    Return (Some (errorsNew "bad signature MAC in encrypted signature"), ake).
Proof.
  intros Hne. unfold processEncryptedSig.
  destruct (negb (Nat.eqb _ _) || Z.eqb (ConstantTimeCompare _ _) 0) eqn:Hc.
  - reflexivity.
  - apply mac_check in Hc. contradiction.
Qed.

(** processEncryptedSig is the comparison of line 278 followed by
    processEncryptedSig_afterMAC. *)
Lemma processEncryptedSig_two_parts
    (ake : AKE) (encryptedSig theirMAC : bytes) (keys : akeKeys) :
  processEncryptedSig encryptedSig theirMAC keys ake =
    if negb (Nat.eqb
               (length (firstn 20 (sumHMAC (m2 keys) (appendData [] encryptedSig))))
               (length theirMAC))
       || Z.eqb (ConstantTimeCompare
                   (firstn 20 (sumHMAC (m2 keys) (appendData [] encryptedSig)))
                   theirMAC) 0
    then Return (Some (errorsNew "bad signature MAC in encrypted signature"), ake)
    else processEncryptedSig_afterMAC encryptedSig keys ake.
Proof.
  unfold processEncryptedSig, processEncryptedSig_afterMAC.
  destruct (negb (Nat.eqb _ _) || Z.eqb (ConstantTimeCompare _ _) 0); reflexivity.
Qed.

Lemma processEncryptedSig_right_mac
    (ake : AKE) (encryptedSig theirMAC : bytes) (keys : akeKeys) :
  theirMAC = firstn 20 (sumHMAC (m2 keys) (appendData [] encryptedSig)) ->
  processEncryptedSig encryptedSig theirMAC keys ake =
    processEncryptedSig_afterMAC encryptedSig keys ake.
Proof.
  intros ->. rewrite processEncryptedSig_two_parts.
  replace (negb (Nat.eqb _ _) || Z.eqb (ConstantTimeCompare _ _) 0) with false
    by (symmetry; apply mac_check; reflexivity).
  reflexivity.
Qed.



Lemma afterMAC_bad_signature
    (ake : AKE) (encryptedSig decryptedSig nextPoint : bytes) (keys : akeKeys)
    (key : PublicKey) (w : bytes) (keyID one two : Z) (rest : bytes) :
  decrypt (c keys) encryptedSig = (decryptedSig, None) ->
  PublicKey_parse decryptedSig = (nextPoint, key, true) ->
  extractWord nextPoint = (w, keyID, true) ->
  (4 <= length nextPoint)%nat ->
  theirPublicValue (context ake) = Some one ->
  ourPublicValue (context ake) = Some two ->
  PublicKey_verify key (sumHMAC (m1 keys) (appendAll one two key keyID))
    (skipn 4 nextPoint) = (rest, false) ->
  processEncryptedSig_afterMAC encryptedSig keys ake =
    Return (Some (errorsNew "bad signature in encrypted signature"),
            on_context (set_theirKey (Some key)) ake).
Proof.
  intros Hdec Hparse Hword Hlen Htheir Hour Hverify.
  unfold processEncryptedSig_afterMAC, sumHMAC, appendAll in *.
  rewrite Hdec, Hparse. monad. rewrite Hword. simpl.
  apply Nat.ltb_ge in Hlen. rewrite Hlen. simpl.
  rewrite Htheir, Hour. simpl. rewrite Hverify. reflexivity.
Qed.

(** What processSig and processRevealSig make of the result of
    processEncryptedSig. *)
Lemma processSig_surfaces (ake : AKE) (msg body : bytes) (m : sig.t) :
  ensureValidMessage ake msg = Ok body ->
  sig_deserialize body = Ok m ->
  processSig msg ake =
    match processEncryptedSig (sig.encryptedSig m) (sig.macSig m)
            (sigKey (context ake)) ake with
    | Panic => Panic
    | Return (Some err, ake') =>
        Return (Some (errorsNew ("otr: in signature message: " ++ Error err)),
                ake')
    | Return (None, ake') => Return (None, ake')
    end.
Proof.
  intros Hvalid Hdes. unfold processSig. monad.
  rewrite (chainErrors_second _ _ _ Hvalid), Hdes.
  destruct (processEncryptedSig _ _ _ _) as [|[[e|] a1]]; reflexivity.
Qed.

Lemma processRevealSig_surfaces
    (ake : AKE) (msg body : bytes) (m : revealSig.t) (decryptedGx : bytes)
    (gx x : Z) (ssid' : bytes) (revealKey' sigKey' : akeKeys) :
  ensureValidMessage ake msg = Ok body ->
  revealSig_deserialize body = Ok m ->
  decrypt (revealSig.r m) (encryptedGx (context ake)) = (decryptedGx, None) ->
  sha256Sum decryptedGx = hashedGx (context ake) ->
  extractGx decryptedGx = (gx, None) ->
  secretExponent (context ake) = Some x ->
  calculateAKEKeys (modExp gx x) = (ssid', revealKey', sigKey') ->
  processRevealSig msg ake =
    match processEncryptedSig (revealSig.encryptedSig m) (revealSig.macSig m)
            revealKey'
            (on_context (set_sigKey sigKey')
               (set_revealKey revealKey'
                  (set_ssid ssid'
                     (on_context (set_theirPublicValue (Some gx)) ake)))) with
    | Panic => Panic
    | Return (Some err, ake') =>
        Return (Some (newOtrError ("in reveal signature message: " ++ Error err)),
                ake')
    | Return (None, ake') => Return (None, ake')
    end.
Proof.
  intros Hvalid Hdes Hdec Hhash Hgx Hx Hkeys.
  unfold processRevealSig, calcDHSharedSecret, calcAKEKeys. monad.
  rewrite (chainErrors_second _ _ _ Hvalid), Hdes, Hdec.
  apply checkDecryptedGx_none in Hhash. rewrite Hhash, Hgx. simpl.
  rewrite Hx. simpl. rewrite Hkeys. simpl.
  destruct (processEncryptedSig _ _ _ _) as [|[[e|] a1]]; reflexivity.
Qed.


(** C5 (as the code has it): processEncryptedSig reports a failed MAC
    comparison and a failed signature verification with two different
    errors, and they stay different in the errors that processSig and
    processRevealSig build from them: on a message whose MAC does not
    match, and on one whose MAC matches and whose signature does not
    verify, each of the two returns its own prefix followed by the text of
    the check that failed. *)
Theorem authentication_errors_tell_the_check
    (ake : AKE) (encryptedSig theirMAC : bytes) (keys : akeKeys)
    (msg body : bytes) :
  (theirMAC <> firstn 20 (sumHMAC (m2 keys) (appendData [] encryptedSig)) ->
     processEncryptedSig encryptedSig theirMAC keys ake =
       Return (Some (errorsNew "bad signature MAC in encrypted signature"), ake))
  /\
  (forall decryptedSig nextPoint key w keyID one two rest,
     theirMAC = firstn 20 (sumHMAC (m2 keys) (appendData [] encryptedSig)) ->
     decrypt (c keys) encryptedSig = (decryptedSig, None) ->
     PublicKey_parse decryptedSig = (nextPoint, key, true) ->
     extractWord nextPoint = (w, keyID, true) ->
     (4 <= length nextPoint)%nat ->
     theirPublicValue (context ake) = Some one ->
     ourPublicValue (context ake) = Some two ->
     PublicKey_verify key (sumHMAC (m1 keys) (appendAll one two key keyID))
       (skipn 4 nextPoint) = (rest, false) ->
     processEncryptedSig encryptedSig theirMAC keys ake =
       Return (Some (errorsNew "bad signature in encrypted signature"),
               on_context (set_theirKey (Some key)) ake))
  /\
  errorsNew "bad signature MAC in encrypted signature"
    <> errorsNew "bad signature in encrypted signature"
  /\
  errorsNew ("otr: in signature message: "
             ++ Error (errorsNew "bad signature MAC in encrypted signature"))
    <> errorsNew ("otr: in signature message: "
                  ++ Error (errorsNew "bad signature in encrypted signature"))
  /\
  newOtrError ("in reveal signature message: "
               ++ Error (errorsNew "bad signature MAC in encrypted signature"))
    <> newOtrError ("in reveal signature message: "
                    ++ Error (errorsNew "bad signature in encrypted signature"))
  /\
  (forall m,
     ensureValidMessage ake msg = Ok body ->
     sig_deserialize body = Ok m ->
     sig.macSig m <>
       firstn 20 (sumHMAC (m2 (sigKey (context ake)))
                    (appendData [] (sig.encryptedSig m))) ->
     processSig msg ake =
       Return (Some (errorsNew
                       ("otr: in signature message: "
                        ++ Error (errorsNew
                                    "bad signature MAC in encrypted signature"))),
               ake))
  /\
  (forall m decryptedSig nextPoint key w keyID one two rest,
     ensureValidMessage ake msg = Ok body ->
     sig_deserialize body = Ok m ->
     sig.macSig m =
       firstn 20 (sumHMAC (m2 (sigKey (context ake)))
                    (appendData [] (sig.encryptedSig m))) ->
     decrypt (c (sigKey (context ake))) (sig.encryptedSig m)
       = (decryptedSig, None) ->
     PublicKey_parse decryptedSig = (nextPoint, key, true) ->
     extractWord nextPoint = (w, keyID, true) ->
     (4 <= length nextPoint)%nat ->
     theirPublicValue (context ake) = Some one ->
     ourPublicValue (context ake) = Some two ->
     PublicKey_verify key
       (sumHMAC (m1 (sigKey (context ake))) (appendAll one two key keyID))
       (skipn 4 nextPoint) = (rest, false) ->
     processSig msg ake =
       Return (Some (errorsNew
                       ("otr: in signature message: "
                        ++ Error (errorsNew
                                    "bad signature in encrypted signature"))),
               on_context (set_theirKey (Some key)) ake))
  /\
  (forall m decryptedGx gx x ssid' revealKey' sigKey',
     ensureValidMessage ake msg = Ok body ->
     revealSig_deserialize body = Ok m ->
     decrypt (revealSig.r m) (encryptedGx (context ake)) = (decryptedGx, None) ->
     sha256Sum decryptedGx = hashedGx (context ake) ->
     extractGx decryptedGx = (gx, None) ->
     secretExponent (context ake) = Some x ->
     calculateAKEKeys (modExp gx x) = (ssid', revealKey', sigKey') ->
     let derived :=
       on_context (set_sigKey sigKey')
         (set_revealKey revealKey'
            (set_ssid ssid'
               (on_context (set_theirPublicValue (Some gx)) ake))) in
     (revealSig.macSig m <>
        firstn 20 (sumHMAC (m2 revealKey')
                     (appendData [] (revealSig.encryptedSig m))) ->
      processRevealSig msg ake =
        Return (Some (newOtrError
                        ("in reveal signature message: "
                         ++ Error (errorsNew
                                     "bad signature MAC in encrypted signature"))),
                derived))
     /\
     (forall decryptedSig nextPoint key w keyID two rest,
        revealSig.macSig m =
          firstn 20 (sumHMAC (m2 revealKey')
                       (appendData [] (revealSig.encryptedSig m))) ->
        decrypt (c revealKey') (revealSig.encryptedSig m)
          = (decryptedSig, None) ->
        PublicKey_parse decryptedSig = (nextPoint, key, true) ->
        extractWord nextPoint = (w, keyID, true) ->
        (4 <= length nextPoint)%nat ->
        ourPublicValue (context ake) = Some two ->
        PublicKey_verify key
          (sumHMAC (m1 revealKey') (appendAll gx two key keyID))
          (skipn 4 nextPoint) = (rest, false) ->
        processRevealSig msg ake =
          Return (Some (newOtrError
                          ("in reveal signature message: "
                           ++ Error (errorsNew
                                       "bad signature in encrypted signature"))),
                  on_context (set_theirKey (Some key)) derived))).
Proof.
  split; [apply processEncryptedSig_bad_mac|].
  split.
  { intros decryptedSig nextPoint key w keyID one two rest
      Hmac Hdec Hparse Hword Hlen Htheir Hour Hverify.
    rewrite (processEncryptedSig_right_mac _ _ _ Hmac).
    eapply afterMAC_bad_signature; eassumption. }
  split; [intros H; vm_compute in H; discriminate H|].
  split; [intros H; vm_compute in H; discriminate H|].
  split; [intros H; vm_compute in H; discriminate H|].
  split.
  { intros m Hvalid Hdes Hmac.
    rewrite (processSig_surfaces _ _ Hvalid Hdes).
    rewrite processEncryptedSig_bad_mac by assumption. reflexivity. }
  split.
  { intros m decryptedSig nextPoint key w keyID one two rest
      Hvalid Hdes Hmac Hdec Hparse Hword Hlen Htheir Hour Hverify.
    rewrite (processSig_surfaces _ _ Hvalid Hdes).
    rewrite (processEncryptedSig_right_mac _ _ _ Hmac).
    erewrite afterMAC_bad_signature by eassumption. reflexivity. }
  intros m decryptedGx gx x ssid' revealKey' sigKey'
    Hvalid Hdes Hdec Hhash Hgx Hx Hkeys derived.
  split.
  - intros Hmac.
    rewrite (processRevealSig_surfaces _ _ Hvalid Hdes Hdec Hhash Hgx Hx Hkeys).
    rewrite processEncryptedSig_bad_mac by assumption. reflexivity.
  - intros decryptedSig nextPoint key w keyID two rest
      Hmac Hdecs Hparse Hword Hlen Hour Hverify.
    rewrite (processRevealSig_surfaces _ _ Hvalid Hdes Hdec Hhash Hgx Hx Hkeys).
    rewrite (processEncryptedSig_right_mac _ _ _ Hmac).
    erewrite afterMAC_bad_signature;
      [ reflexivity | exact Hdecs | exact Hparse | exact Hword | exact Hlen
      | reflexivity | exact Hour | exact Hverify ].
Qed.

Lemma extractGx_accepts (d : bytes) (gx : Z) :
  extractGx d = (gx, None) -> 2 <= gx <= p - 2.
Proof.
  unfold extractGx. destruct (extractMPI d) as [[newData v] ok].
  destruct (negb ok || Nat.ltb 0 (length newData)); [discriminate|].
  destruct (lt v g1 || gt v pMinusTwo) eqn:Hrange; [discriminate|].
  intros H. inversion H; subst.
  apply orb_false_iff in Hrange. destruct Hrange as [Hl Hg].
  unfold lt, gt, g1, pMinusTwo in *.
  rewrite Z.ltb_ge in Hl. rewrite Z.gtb_ltb, Z.ltb_ge in Hg. lia.
Qed.

Lemma out_of_range (v : Z) :
  v < 2 \/ p - 2 < v -> lt v g1 || gt v pMinusTwo = true.
Proof.
  unfold lt, gt, g1, pMinusTwo. intros [H|H].
  - apply Z.ltb_lt in H. rewrite H. reflexivity.
  - apply orb_true_iff. right. rewrite Z.gtb_ltb. apply Z.ltb_lt. assumption.
Qed.

Lemma extractGx_out_of_range (d : bytes) (v : Z) :
  v < 2 \/ p - 2 < v ->
  extractMPI d = ([], v, true) ->
  extractGx d = (v, Some (errorsNew "otr: DH value out of range")).
Proof.
  intros Hv Hd. unfold extractGx. rewrite Hd. simpl.
  rewrite (out_of_range Hv). reflexivity.
Qed.

Lemma dhKey_deserialize_accepts (body : bytes) (m : dhKey.t) :
  dhKey_deserialize body = Ok m ->
  exists gy, dhKey.gy m = Some gy /\ 2 <= gy <= p - 2.
Proof.
  unfold dhKey_deserialize. destruct (extractMPI body) as [[rest v] ok].
  destruct (negb ok || Nat.ltb 0 (length rest)); [discriminate|].
  destruct (lt v g1 || gt v pMinusTwo) eqn:Hrange; [discriminate|].
  intros H. inversion H; subst. simpl. exists v. split; [reflexivity|].
  apply orb_false_iff in Hrange. destruct Hrange as [Hl Hg].
  unfold lt, gt, g1, pMinusTwo in *.
  rewrite Z.ltb_ge in Hl. rewrite Z.gtb_ltb, Z.ltb_ge in Hg. lia.
Qed.

(** [m] leaves theirPublicValue as it is. *)
Lemma processEncryptedSig_keeps_theirPublicValue
    (encryptedSig theirMAC : bytes) (keys : akeKeys) (a a' : AKE)
    (x : option error) :
  processEncryptedSig encryptedSig theirMAC keys a = Return (x, a') ->
  theirPublicValue (context a') = theirPublicValue (context a).
Proof.
  intros H. unfold processEncryptedSig in H. revert H. monad. intros H.
  crunch H; simpl; congruence.
Qed.

(** What processRevealSig and processDHKey may leave in theirPublicValue:
    what was there, or a value within the bounds. *)
Lemma processRevealSig_stores_in_range (msg : bytes) (a a' : AKE) (x : option error) :
  processRevealSig msg a = Return (x, a') ->
  theirPublicValue (context a') = theirPublicValue (context a) \/
  exists gx, theirPublicValue (context a') = Some gx /\ 2 <= gx <= p - 2.
Proof.
  intros H. unfold processRevealSig, calcDHSharedSecret, calcAKEKeys in H.
  revert H. monad. intros H.
  crunch H; try (left; reflexivity);
    match goal with
    | Hx : extractGx _ = (?gx, None),
      Hp : processEncryptedSig _ _ _ _ = Return _ |- _ =>
        apply extractGx_accepts in Hx;
        apply processEncryptedSig_keeps_theirPublicValue in Hp;
        simpl in Hp; right; exists gx; split; [exact Hp | exact Hx]
    end.
Qed.

Lemma processDHKey_stores_in_range (msg : bytes) (a a' : AKE)
    (x : bool * option error) :
  processDHKey msg a = Return (x, a') ->
  theirPublicValue (context a') = theirPublicValue (context a) \/
  exists gy, theirPublicValue (context a') = Some gy /\ 2 <= gy <= p - 2.
Proof.
  intros H. unfold processDHKey in H. revert H. monad.
  destruct (chainErrors (ensureValidMessage a) dhKey_deserialize msg)
    as [m|e] eqn:Hchain.
  2:{ intros H. inversion H. left. reflexivity. }
  apply chainErrors_ok in Hchain. destruct Hchain as (body & _ & Hdes).
  apply dhKey_deserialize_accepts in Hdes. destruct Hdes as (gy & Hgy & Hrange).
  rewrite Hgy.
  destruct (theirPublicValue (context a)) eqn:Htheir; simpl;
    intros H; inversion H; subst; simpl.
  - left. assumption.
  - right. exists gy. auto.
Qed.

(** C2 (as the code has it): a DH public value outside [2, p-2], such as 1
    or p-1, is refused with the out-of-range error by extractGx and by
    processDHKey when the bytes are exactly one MPI, and by processRevealSig
    when moreover the commitment matches, whatever the MAC and the signature
    that come with it; and neither processDHKey nor processRevealSig ever
    stores such a value in theirPublicValue. *)
Theorem out_of_range_value_rejected (ake : AKE) (msg : bytes) (v : Z) :
  v < 2 \/ p - 2 < v ->
  (forall d,
     extractMPI d = ([], v, true) ->
     extractGx d = (v, Some (errorsNew "otr: DH value out of range")))
  /\
  (forall body,
     ensureValidMessage ake msg = Ok body ->
     extractMPI body = ([], v, true) ->
     processDHKey msg ake =
       Return ((false, Some (errorsNew "otr: DH value out of range")), ake))
  /\
  (forall body m decryptedGx,
     ensureValidMessage ake msg = Ok body ->
     revealSig_deserialize body = Ok m ->
     decrypt (revealSig.r m) (encryptedGx (context ake)) = (decryptedGx, None) ->
     sha256Sum decryptedGx = hashedGx (context ake) ->
     extractMPI decryptedGx = ([], v, true) ->
     processRevealSig msg ake =
       Return (Some (errorsNew "otr: DH value out of range"), ake))
  /\
  (forall ake' isSame err,
     processDHKey msg ake = Return ((isSame, err), ake') ->
     theirPublicValue (context ake') = Some v ->
     theirPublicValue (context ake) = Some v)
  /\
  (forall ake' err,
     processRevealSig msg ake = Return (err, ake') ->
     theirPublicValue (context ake') = Some v ->
     theirPublicValue (context ake) = Some v).
Proof.
  intros Hv.
  split; [intros d; apply extractGx_out_of_range; assumption|].
  split.
  { intros body Hvalid Hbody. unfold processDHKey. monad.
    rewrite (chainErrors_second _ _ _ Hvalid).
    unfold dhKey_deserialize. rewrite Hbody. simpl.
    rewrite (out_of_range Hv). reflexivity. }
  split.
  { intros body m decryptedGx Hvalid Hdes Hdec Hhash Hmpi.
    unfold processRevealSig. monad.
    rewrite (chainErrors_second _ _ _ Hvalid), Hdes, Hdec.
    apply checkDecryptedGx_none in Hhash. rewrite Hhash.
    rewrite (extractGx_out_of_range _ Hv Hmpi). reflexivity. }
  split.
  - intros ake' isSame err H Hafter.
    apply processDHKey_stores_in_range in H.
    destruct H as [H|(gy & Hgy & Hrange)]; [congruence|].
    rewrite Hgy in Hafter. inversion Hafter; subst. lia.
  - intros ake' err H Hafter.
    apply processRevealSig_stores_in_range in H.
    destruct H as [H|(gx & Hgx & Hrange)]; [congruence|].
    rewrite Hgx in Hafter. inversion Hafter; subst. lia.
Qed.

End Proofs.

(** ** The theorems at concrete inputs *)

Section Examples.
Import Doubles Run.


Lemma processRevealSig_checks_commitment_witness :
  processRevealSig revealMsg aliceWrongHash =
    Return (Some (errorsNew "otr: bad commit MAC in reveal signature message"),
            aliceWrongHash)
  /\
  exists body m decryptedGx,
    ensureValidMessage alice2 revealMsg = Ok body /\
    revealSig_deserialize body = Ok m /\
    decrypt (revealSig.r m) (encryptedGx (context alice2)) = (decryptedGx, None) /\
    sha256Sum decryptedGx = hashedGx (context alice2).
Proof.
  split.
  - destruct (processRevealSig_checks_commitment aliceWrongHash revealMsg)
      as [Hfails _].
    apply (Hfails (skipn 3 revealMsg) revealBody
             (keystream (r (context bob3)) (encryptedGx (context alice2))));
      try (vm_compute; reflexivity).
    vm_compute. discriminate.
  - destruct (processRevealSig_checks_commitment alice2 revealMsg)
      as [_ Hchanged].
    apply (Hchanged (Return (None, alice3))).
    + vm_compute. reflexivity.
    + intros err H. vm_compute in H. discriminate H.
Defined.

Lemma processDHKey_keeps_first_gy_witness :
  (exists gy,
     dhKey.gy keyBodyFive = Some gy /\
     (forall theirs,
        theirPublicValue (context bob2) = Some theirs ->
        exists isSame,
          processDHKey keyMsgFive bob2 = Return ((isSame, None), bob2) /\
          (isSame = true <-> gy = theirs)) /\
     (theirPublicValue (context bob2) = None ->
        processDHKey keyMsgFive bob2 =
          Return ((false, None), on_context (set_theirPublicValue (Some gy)) bob2)))
  /\
  (exists gy,
     dhKey.gy keyBody = Some gy /\
     (forall theirs,
        theirPublicValue (context bob1) = Some theirs ->
        exists isSame,
          processDHKey keyMsg bob1 = Return ((isSame, None), bob1) /\
          (isSame = true <-> gy = theirs)) /\
     (theirPublicValue (context bob1) = None ->
        processDHKey keyMsg bob1 =
          Return ((false, None), on_context (set_theirPublicValue (Some gy)) bob1))).
Proof.
  split.
  - apply (processDHKey_keeps_first_gy bob2 keyMsgFive (body := skipn 3 keyMsgFive));
      vm_compute; reflexivity.
  - apply (processDHKey_keeps_first_gy bob1 keyMsg (body := skipn 3 keyMsg));
      vm_compute; reflexivity.
Defined.


Lemma authentication_errors_tell_the_check_witness :
  processEncryptedSig (sig.encryptedSig sigBody) (macOf spoiledSig) bobKeys bob3 =
    Return (Some (errorsNew "bad signature MAC in encrypted signature"), bob3)
  /\
  processEncryptedSig spoiledSig (macOf spoiledSig) bobKeys bob3 =
    Return (Some (errorsNew "bad signature in encrypted signature"),
            on_context (set_theirKey (Some 10)) bob3)
  /\
  processSig Tampered.sigMsgWrongMac bob3 =
    Return (Some (errorsNew
                    "otr: in signature message: bad signature MAC in encrypted signature"),
            bob3)
  /\
  processSig Tampered.sigMsgSpoiled bob3 =
    Return (Some (errorsNew
                    "otr: in signature message: bad signature in encrypted signature"),
            on_context (set_theirKey (Some 10)) bob3)
  /\
  processRevealSig ConversationDoubles.revealMsgWrongMac alice2 =
    Return (Some (newOtrError
                    "in reveal signature message: bad signature MAC in encrypted signature"),
            Tampered.aliceDerived)
  /\
  processRevealSig Tampered.revealMsgSpoiled alice2 =
    Return (Some (newOtrError
                    "in reveal signature message: bad signature in encrypted signature"),
            on_context (set_theirKey (Some 6)) Tampered.aliceDerived).
Proof.
  split; [|split; [|split; [|split; [|split]]]].
  - destruct (authentication_errors_tell_the_check bob3
                (sig.encryptedSig sigBody) (macOf spoiledSig) bobKeys [] [])
      as [Hmac _].
    apply Hmac. vm_compute. discriminate.
  - destruct (authentication_errors_tell_the_check bob3
                spoiledSig (macOf spoiledSig) bobKeys [] [])
      as (_ & Hsig & _).
    eapply Hsig; try (vm_compute; reflexivity).
    vm_compute. lia.
  - destruct (authentication_errors_tell_the_check bob3 [] [] bobKeys
                Tampered.sigMsgWrongMac (skipn 3 Tampered.sigMsgWrongMac))
      as (_ & _ & _ & _ & _ & Hmac & _).
    apply (Hmac {| sig.messageHeader := [];
                   sig.encryptedSig := sig.encryptedSig sigBody;
                   sig.macSig := repeat x00 20 |});
      try (vm_compute; reflexivity).
    vm_compute. discriminate.
  - destruct (authentication_errors_tell_the_check bob3 [] [] bobKeys
                Tampered.sigMsgSpoiled (skipn 3 Tampered.sigMsgSpoiled))
      as (_ & _ & _ & _ & _ & _ & Hsig & _).
    eapply (Hsig {| sig.messageHeader := [];
                    sig.encryptedSig := spoiledSig;
                    sig.macSig := macOf spoiledSig |});
      try (vm_compute; reflexivity).
    vm_compute. lia.
  - destruct (authentication_errors_tell_the_check alice2 [] [] bobKeys
                ConversationDoubles.revealMsgWrongMac
                (skipn 3 ConversationDoubles.revealMsgWrongMac))
      as (_ & _ & _ & _ & _ & _ & _ & Hreveal).
    destruct (Hreveal
                {| revealSig.messageHeader := [];
                   revealSig.r := revealSig.r revealBody;
                   revealSig.encryptedSig := revealSig.encryptedSig revealBody;
                   revealSig.macSig := repeat x00 20 |}
                (putMPI [] 1350) 1350
                (SetBytes (firstn 40 (rand (context alice1))))
                (ssid bob3) (revealKey bob3) (sigKey (context bob3)))
      as [Hmac _];
      [ vm_compute; reflexivity .. | ].
    rewrite Hmac; [vm_compute; reflexivity|].
    vm_compute. discriminate.
  - destruct (authentication_errors_tell_the_check alice2 [] [] bobKeys
                Tampered.revealMsgSpoiled (skipn 3 Tampered.revealMsgSpoiled))
      as (_ & _ & _ & _ & _ & _ & _ & Hreveal).
    destruct (Hreveal
                {| revealSig.messageHeader := [];
                   revealSig.r := revealSig.r revealBody;
                   revealSig.encryptedSig := Tampered.spoiledRevealSig;
                   revealSig.macSig :=
                     firstn 20 (mac (m2 (revealKey bob3))
                                  (putData [] Tampered.spoiledRevealSig)) |}
                (putMPI [] 1350) 1350
                (SetBytes (firstn 40 (rand (context alice1))))
                (ssid bob3) (revealKey bob3) (sigKey (context bob3)))
      as [_ Hsig];
      [ vm_compute; reflexivity .. | ].
    eapply eq_trans.
    { eapply Hsig; try (vm_compute; reflexivity). vm_compute. lia. }
    vm_compute. reflexivity.
Defined.

(** C5, the claim as written fails here: the same receiver, with the same
    keys, returns one error for a signature message whose MAC does not
    match and another for one whose MAC matches and whose signature does
    not verify. *)
Lemma authentication_errors_differ :
  macOf spoiledSig <> macOf (sig.encryptedSig sigBody) /\
  processEncryptedSig (sig.encryptedSig sigBody) (macOf spoiledSig) bobKeys bob3 =
    Return (Some (errorsNew "bad signature MAC in encrypted signature"), bob3)
  /\
  snd (PublicKey_verify 10
         (sumHMAC (m1 bobKeys) (appendAll 517 1350 10 1))
         (skipn 4 (skipn 5 (keystream (c bobKeys) spoiledSig)))) = false /\
  processEncryptedSig spoiledSig (macOf spoiledSig) bobKeys bob3 =
    Return (Some (errorsNew "bad signature in encrypted signature"),
            on_context (set_theirKey (Some 10)) bob3)
  /\
  errorsNew "bad signature MAC in encrypted signature"
    <> errorsNew "bad signature in encrypted signature".
Proof.
  split; [vm_compute; discriminate|].
  split; [vm_compute; reflexivity|].
  split; [vm_compute; reflexivity|].
  split; [vm_compute; reflexivity|].
  discriminate.
Qed.

Lemma short_random_read_fails_witness :
  (exists ake', dhCommitMessage starved45 = Return (Err errShortRandomRead, ake'))
  /\
  (exists ake', dhKeyMessage starved10 = Return (Err errShortRandomRead, ake'))
  /\
  ((56 <= length (rand (context bob0)))%nat /\
   secretExponent (context bob1) = Some (SetBytes (firstn 40 (rand (context bob0)))) /\
   r (context bob1) = firstn 16 (skipn 40 (rand (context bob0))))
  /\
  ((40 <= length (rand (context alice1)))%nat /\
   secretExponent (context alice2) =
     Some (SetBytes (firstn 40 (rand (context alice1))))).
Proof.
  split; [|split; [|split]].
  - destruct (short_random_read_fails starved45 eq_refl) as (H & _).
    apply H. vm_compute. lia.
  - destruct (short_random_read_fails starved10 eq_refl) as (_ & H & _).
    apply H. vm_compute. lia.
  - destruct (short_random_read_fails bob0 eq_refl) as (_ & _ & H & _).
    apply (H commitMsg bob1). vm_compute. reflexivity.
  - destruct (short_random_read_fails alice1 eq_refl) as (_ & _ & _ & H).
    apply (H keyMsg alice2). vm_compute. reflexivity.
Defined.

Lemma exponent_and_public_value_set_together_witness :
  exponentInvariant (context bob1) /\
  (forall a', step bob1 a' -> exponentInvariant (context a')).
Proof.
  apply exponent_and_public_value_set_together.
  - vm_compute. discriminate.
  - apply reachable_step with (a := bob0).
    + apply reachable_new; reflexivity.
    + apply step_dhCommitMessage. exists (Ok commitMsg). vm_compute. reflexivity.
Defined.

Lemma sendDHCommit_resets_keys_witness :
  state conv1 = authStateAwaitingDHKey /\
  keys conv1 = {| otherFields := zeroKeyFields;
                  oldMACKeys := oldMACKeys (keys conv0) |}.
Proof.
  apply (sendDHCommit_resets_keys conv0 (toSend := commitMsg)).
  vm_compute. reflexivity.
Defined.

Lemma out_of_range_value_rejected_witness :
  extractGx (putMPI [] 1) = (1, Some (errorsNew "otr: DH value out of range"))
  /\
  processDHKey keyMsgOne bob1 =
    Return ((false, Some (errorsNew "otr: DH value out of range")), bob1)
  /\
  processRevealSig revealMsg aliceOne =
    Return (Some (errorsNew "otr: DH value out of range"), aliceOne)
  /\
  extractGx (putMPI [] (p - 1)) = (p - 1, Some (errorsNew "otr: DH value out of range")).
Proof.
  split; [|split; [|split]].
  - destruct (out_of_range_value_rejected bob1 keyMsgOne (v := 1)) as (H & _).
    + left. lia.
    + apply H. vm_compute. reflexivity.
  - destruct (out_of_range_value_rejected bob1 keyMsgOne (v := 1)) as (_ & H & _).
    + left. lia.
    + apply (H (skipn 3 keyMsgOne)); vm_compute; reflexivity.
  - destruct (out_of_range_value_rejected aliceOne revealMsg (v := 1))
      as (_ & _ & H & _).
    + left. lia.
    + apply (H (skipn 3 revealMsg) revealBody (putMPI [] 1));
        vm_compute; reflexivity.
  - destruct (out_of_range_value_rejected bob1 keyMsgOne (v := p - 1)) as (H & _).
    + right. lia.
    + apply H. vm_compute. reflexivity.
Defined.

(** C2, the claim as written fails here: the revealed value is 1, outside
    [2, p-2], and the commitment hash does not match; processRevealSig
    answers with the commitment error, not with the out-of-range error. *)
Lemma out_of_range_behind_wrong_commitment :
  extractMPI (fst (decrypt (revealSig.r revealBody)
                     (encryptedGx (context aliceOneWrongHash)))) = ([], 1, true)
  /\
  sha256Sum (fst (decrypt (revealSig.r revealBody)
                    (encryptedGx (context aliceOneWrongHash))))
    <> hashedGx (context aliceOneWrongHash)
  /\
  processRevealSig revealMsg aliceOneWrongHash =
    Return (Some (errorsNew "otr: bad commit MAC in reveal signature message"),
            aliceOneWrongHash)
  /\
  errorsNew "otr: bad commit MAC in reveal signature message"
    <> errorsNew "otr: DH value out of range".
Proof.
  split; [vm_compute; reflexivity|].
  split; [vm_compute; discriminate|].
  split; [vm_compute; reflexivity|].
  discriminate.
Qed.

End Examples.

(** ** Further properties of ake.go *)

Section MoreProofs.
Context {T : ExternalTypes} {E : Externals}.

#[local] Arguments skipn : simpl never.
#[local] Arguments firstn : simpl never.
#[local] Arguments String.append : simpl never.

Ltac monad := unfold bind, get, modify, ret, deref, panic, promoted, within; simpl.

Ltac crunch H :=
  repeat (simpl in H;
    match type of H with
    | Panic = Return _ => discriminate H
    | Return _ = Return _ => inversion H; subst; clear H
    | context [match ?x with _ => _ end] =>
        lazymatch x with
        | context [match _ with _ => _ end] => fail
        | _ => destruct x eqn:?
        end
    end).

(** Records are equal when their fields are. *)
Ltac by_fields :=
  repeat match goal with
         | x : AKE |- _ => destruct x as [[] ? ?]
         | x : Conversation |- _ => destruct x as [? ? []]
         end;
  simpl in *; try reflexivity; try congruence.

Lemma pow_of_mod_pow (g x y : Z) :
  0 < p -> 0 <= x -> 0 <= y ->
  modExp (modExp g x) y = (g ^ (x * y)) mod p.
Proof.
  intros Hp Hx Hy. unfold modExp.
  rewrite !Zpow_mod_correct by lia.
  rewrite <- Zpower_mod by lia.
  rewrite <- Z.pow_mul_r by lia. reflexivity.
Qed.

(** X1: two contexts that hold their own exponent and public value, as
    setSecretExponent leaves them, and each other's public value compute
    the same shared secret, g1 to the product of the exponents modulo p,
    and so derive the same ssid and key bundles. *)
Theorem shared_secret_agrees (a b : AKE) (x y gx gy : Z) :
  0 < p -> 0 <= x -> 0 <= y ->
  secretExponent (context a) = Some x ->
  ourPublicValue (context a) = Some gx ->
  exponentInvariant (context a) ->
  secretExponent (context b) = Some y ->
  ourPublicValue (context b) = Some gy ->
  exponentInvariant (context b) ->
  theirPublicValue (context a) = Some gy ->
  theirPublicValue (context b) = Some gx ->
  let s := (g1 ^ (x * y)) mod p in
  calcDHSharedSecret a = Return (s, a) /\
  calcDHSharedSecret b = Return (s, b) /\
  forall a' b',
    calcAKEKeys s a = Return (tt, a') ->
    calcAKEKeys s b = Return (tt, b') ->
    ssid a' = ssid b' /\ revealKey a' = revealKey b' /\
    sigKey (context a') = sigKey (context b').
Proof.
  intros Hp Hx Hy Hax Hagx Hainv Hby Hbgy Hbinv Hatheir Hbtheir s.
  unfold exponentInvariant in Hainv, Hbinv.
  rewrite Hax, Hagx in Hainv. rewrite Hby, Hbgy in Hbinv.
  assert (Ea : modExp gy x = s).
  { subst gy. rewrite <- modExp_spec by lia.
    rewrite pow_of_mod_pow by assumption.
    unfold s. f_equal. f_equal. lia. }
  assert (Eb : modExp gx y = s).
  { subst gx. rewrite <- modExp_spec by lia.
    rewrite pow_of_mod_pow by assumption. reflexivity. }
  split; [|split].
  - unfold calcDHSharedSecret. monad. rewrite Hatheir, Hax. simpl.
    rewrite Ea. reflexivity.
  - unfold calcDHSharedSecret. monad. rewrite Hbtheir, Hby. simpl.
    rewrite Eb. reflexivity.
  - intros a' b'. unfold calcAKEKeys.
    destruct (calculateAKEKeys s) as [[ssid' revealKey'] sigKey'].
    monad. intros Ha Hb. inversion Ha. inversion Hb. simpl. auto.
Qed.

Lemma processEncryptedSig_accepts
    (encryptedSig theirMAC : bytes) (keys : akeKeys) (a a' : AKE) :
  processEncryptedSig encryptedSig theirMAC keys a = Return (None, a') ->
  theirMAC = firstn 20 (sumHMAC (m2 keys) (appendData [] encryptedSig)) /\
  exists decryptedSig nextPoint key w keyID one two,
    decrypt (c keys) encryptedSig = (decryptedSig, None) /\
    PublicKey_parse decryptedSig = (nextPoint, key, true) /\
    extractWord nextPoint = (w, keyID, true) /\
    (4 <= length nextPoint)%nat /\
    theirPublicValue (context a) = Some one /\
    ourPublicValue (context a) = Some two /\
    PublicKey_verify key (sumHMAC (m1 keys) (appendAll one two key keyID))
      (skipn 4 nextPoint) = ([], true) /\
    a' = on_context (set_theirKeyID keyID) (on_context (set_theirKey (Some key)) a).
Proof.
  intros H. unfold processEncryptedSig in H.
  destruct (negb (Nat.eqb _ _) || Z.eqb (ConstantTimeCompare _ _) 0) eqn:Hmac.
  { revert H. monad. discriminate. }
  apply mac_check in Hmac. split; [assumption|].
  destruct (decrypt (c keys) encryptedSig) as [decryptedSig [e|]] eqn:Hdec.
  { revert H. monad. discriminate. }
  destruct (PublicKey_parse decryptedSig) as [[nextPoint key] ok1] eqn:Hparse.
  revert H. monad.
  destruct (extractWord nextPoint) as [[w keyID] ok2] eqn:Hword.
  destruct ok1; simpl; [|discriminate].
  destruct ok2; simpl; [|discriminate].
  destruct (Nat.ltb_spec (length nextPoint) 4) as [Hlen|Hlen]; simpl;
    [discriminate|].
  destruct (theirPublicValue (context a)) as [one|] eqn:Htheir; [|discriminate].
  destruct (ourPublicValue (context a)) as [two|] eqn:Hour; [|discriminate].
  simpl.
  destruct (PublicKey_verify key _ (skipn 4 nextPoint)) as [rest ok] eqn:Hverify.
  destruct ok; simpl; [|discriminate].
  destruct rest as [|b rest]; simpl; [|discriminate].
  intros H. inversion H.
  exists decryptedSig, nextPoint, key, w, keyID, one, two.
  repeat (split; [first [assumption | reflexivity]|]). reflexivity.
Qed.

(** X2: processEncryptedSig returns a nil error only if the MAC it was
    given is the first 20 bytes of its own MAC of the length-prefixed
    encrypted signature, the payload decrypts and parses into a key and a
    key id, and that key verifies the signature over the MAC of the two
    public values, the key and the key id, with nothing left over; the
    context then holds that key and key id and is otherwise as before. *)
Theorem processEncryptedSig_accepts_only_verified
    (encryptedSig theirMAC : bytes) (keys : akeKeys) (a a' : AKE) :
  processEncryptedSig encryptedSig theirMAC keys a = Return (None, a') ->
  theirMAC = firstn 20 (sumHMAC (m2 keys) (appendData [] encryptedSig)) /\
  exists decryptedSig nextPoint key w keyID one two,
    decrypt (c keys) encryptedSig = (decryptedSig, None) /\
    PublicKey_parse decryptedSig = (nextPoint, key, true) /\
    extractWord nextPoint = (w, keyID, true) /\
    (4 <= length nextPoint)%nat /\
    theirPublicValue (context a) = Some one /\
    ourPublicValue (context a) = Some two /\
    PublicKey_verify key (sumHMAC (m1 keys) (appendAll one two key keyID))
      (skipn 4 nextPoint) = ([], true) /\
    a' = on_context (set_theirKeyID keyID) (on_context (set_theirKey (Some key)) a).
Proof. apply processEncryptedSig_accepts. Qed.

Lemma processEncryptedSig_frame
    (encryptedSig theirMAC : bytes) (keys : akeKeys) (a a' : AKE)
    (err : option error) :
  processEncryptedSig encryptedSig theirMAC keys a = Return (err, a') ->
  on_context (fun ctx => set_theirKeyID (theirKeyID (context a))
                           (set_theirKey (theirKey (context a)) ctx)) a' = a /\
  (err <> None -> theirKeyID (context a') = theirKeyID (context a)).
Proof.
  intros H. unfold processEncryptedSig in H. revert H. monad. intros H.
  crunch H; (split; [by_fields |]);
    try (intros _; reflexivity).
  intros Hne. congruence.
Qed.

(** X3: whatever processEncryptedSig and processSig are given and whatever
    they return, they change nothing in the context but theirKey and
    theirKeyID, and theirKeyID only when they return a nil error. *)
Theorem signature_processing_touches_only_peer_key
    (msg encryptedSig theirMAC : bytes) (keys : akeKeys) (a a' : AKE)
    (err : option error) :
  processEncryptedSig encryptedSig theirMAC keys a = Return (err, a') \/
  processSig msg a = Return (err, a') ->
  on_context (fun ctx => set_theirKeyID (theirKeyID (context a))
                           (set_theirKey (theirKey (context a)) ctx)) a' = a /\
  (err <> None -> theirKeyID (context a') = theirKeyID (context a)).
Proof.
  intros [H|H].
  - eapply processEncryptedSig_frame; eassumption.
  - unfold processSig in H. revert H. monad.
    destruct (chainErrors (ensureValidMessage a) sig_deserialize msg) as [m|e].
    + destruct (processEncryptedSig _ _ _ a) as [|[inner a1]] eqn:Hp;
        [discriminate|].
      apply processEncryptedSig_frame in Hp. destruct Hp as [Hframe Hid].
      destruct inner as [e|]; simpl; intros H; inversion H; subst.
      * split; [assumption|]. intros _. apply Hid. discriminate.
      * split; [assumption|]. congruence.
    + intros H. inversion H; subst.
      split; [by_fields|]. reflexivity.
Qed.

(** X4: the encrypted signature that generateEncryptedSignature builds is
    accepted by processEncryptedSig on the other side, which holds the two
    public values in the opposite roles and the same key bundle, when
    decryption undoes the encryption and the payload parses back into the
    sender's public key, key id and signature: the receiver's context then
    holds the sender's public key and key id. *)
Theorem signature_accepted_by_peer
    (a b : AKE) (key : akeKeys) (gx gy : Z) (priv : PrivateKey)
    (sigb nextPoint w : bytes) (rd : Reader) :
  ourPublicValue (context a) = Some gx ->
  theirPublicValue (context a) = Some gy ->
  ourKey (context a) = Some priv ->
  theirPublicValue (context b) = Some gx ->
  ourPublicValue (context b) = Some gy ->
  let pub := PrivateKey_PublicKey priv in
  let id := ourKeyID (context a) in
  let mb := sumHMAC (m1 key) (appendAll gx gy pub id) in
  let plain := appendWord (PublicKey_serialize pub) id ++ sigb in
  PrivateKey_sign priv (rand (context a)) mb = ((sigb, None), rd) ->
  decrypt (c key) (aes_ctr (c key) plain) = (plain, None) ->
  PublicKey_parse plain = (nextPoint, pub, true) ->
  extractWord nextPoint = (w, id, true) ->
  (4 <= length nextPoint)%nat ->
  skipn 4 nextPoint = sigb ->
  PublicKey_verify pub mb sigb = ([], true) ->
  exists xb,
    generateEncryptedSignature key a =
      Return (Ok (appendData [] xb), on_context (set_rand rd) a) /\
    processEncryptedSig xb (firstn 20 (sumHMAC (m2 key) (appendData [] xb))) key b =
      Return (None, on_context (set_theirKeyID id)
                      (on_context (set_theirKey (Some pub)) b)).
Proof.
  intros Hagx Hagy Hkey Hbgx Hbgy pub id mb plain
    Hsign Hdec Hparse Hword Hlen Hsig Hverify.
  subst pub id mb plain. unfold sumHMAC, appendAll in *.
  eexists. split.
  - unfold generateEncryptedSignature, calcXb, sumHMAC, appendAll. monad.
    rewrite Hagx, Hagy, Hkey. monad. rewrite Hkey. monad.
    rewrite Hsign. reflexivity.
  - unfold processEncryptedSig, sumHMAC, appendAll.
    replace (negb (Nat.eqb _ _) || Z.eqb (ConstantTimeCompare _ _) 0) with false
      by (symmetry; apply mac_check; reflexivity).
    rewrite Hdec, Hparse. monad. rewrite Hword. simpl.
    apply Nat.ltb_ge in Hlen. rewrite Hlen. simpl.
    rewrite Hbgx, Hbgy. simpl. rewrite Hsig, Hverify. reflexivity.
Qed.

(** X5: when the long-term key cannot sign, revealSigMessage and
    sigMessage return no message: errShortRandomRead if the signing failed
    with io.ErrUnexpectedEOF, the error of the signing otherwise. *)
Theorem signing_failure_gives_no_message
    (a : AKE) (gx gy x : Z) (priv : PrivateKey)
    (ssid' : bytes) (revealKey' sigKey' : akeKeys)
    (sigb : bytes) (e : error) (rd : Reader) (k : akeKeys) :
  theirPublicValue (context a) = Some gy ->
  secretExponent (context a) = Some x ->
  ourPublicValue (context a) = Some gx ->
  ourKey (context a) = Some priv ->
  calculateAKEKeys (modExp gy x) = (ssid', revealKey', sigKey') ->
  PrivateKey_sign priv (rand (context a))
    (sumHMAC (m1 k)
       (appendAll gx gy (PrivateKey_PublicKey priv) (ourKeyID (context a))))
    = ((sigb, Some e), rd) ->
  let surfaced :=
    match e with
    | ioErrUnexpectedEOF => errShortRandomRead
    | _ => e
    end in
  (k = revealKey' -> exists a', revealSigMessage a = Return (Err surfaced, a')) /\
  (k = sigKey' -> exists a', sigMessage a = Return (Err surfaced, a')).
Proof.
  intros Htheir Hx Hour Hkey Hkeys Hsign surfaced.
  unfold sumHMAC, appendAll in Hsign.
  split; intros ->.
  - unfold revealSigMessage, calcDHSharedSecret, calcAKEKeys,
      generateEncryptedSignature, calcXb, sumHMAC, appendAll.
    monad. rewrite Htheir, Hx. simpl. rewrite Hkeys. simpl.
    rewrite Hour, Htheir, Hkey. monad. rewrite Hkey. monad.
    rewrite Hsign. simpl.
    unfold surfaced. destruct e; simpl; eauto.
  - unfold sigMessage, calcDHSharedSecret, calcAKEKeys,
      generateEncryptedSignature, calcXb, sumHMAC, appendAll.
    monad. rewrite Htheir, Hx. simpl. rewrite Hkeys. simpl.
    rewrite Hour, Htheir, Hkey. monad. rewrite Hkey. monad.
    rewrite Hsign. simpl.
    unfold surfaced. destruct e; simpl; eauto.
Qed.

(** X6: whenever revealSigMessage or sigMessage returns, with a message or
    with an error, the context holds the ssid and the two key bundles
    derived from theirPublicValue to the power secretExponent, and nothing
    else in it has changed but the random source. *)
Theorem signature_messages_derive_keys
    (a a' : AKE) (res : result bytes) :
  revealSigMessage a = Return (res, a') \/ sigMessage a = Return (res, a') ->
  (exists gy x,
     theirPublicValue (context a) = Some gy /\
     secretExponent (context a) = Some x /\
     (ssid a', revealKey a', sigKey (context a')) = calculateAKEKeys (modExp gy x))
  /\
  set_ssid (ssid a)
    (set_revealKey (revealKey a)
       (on_context (fun ctx => set_sigKey (sigKey (context a))
                                 (set_rand (rand (context a)) ctx)) a')) = a.
Proof.
  intros [H|H].
  - unfold revealSigMessage, calcDHSharedSecret, calcAKEKeys,
      generateEncryptedSignature, calcXb in H.
    revert H. monad. intros H.
    crunch H;
      (split; [do 2 eexists; repeat split; try reflexivity;
               simpl; symmetry; eassumption
              | by_fields]).
  - unfold sigMessage, calcDHSharedSecret, calcAKEKeys,
      generateEncryptedSignature, calcXb in H.
    revert H. monad. intros H.
    crunch H;
      (split; [do 2 eexists; repeat split; try reflexivity;
               simpl; symmetry; eassumption
              | by_fields]).
Qed.

(** X7: once processDHKey has accepted a message, theirPublicValue is set
    and no later DHKey message, whatever it holds, changes the context;
    the message that set the value is answered with isSame when it comes
    again. *)
Theorem processDHKey_first_value_stays
    (a a1 : AKE) (msg : bytes) (same : bool) :
  processDHKey msg a = Return ((same, None), a1) ->
  (exists v, theirPublicValue (context a1) = Some v) /\
  (forall msg' res a2, processDHKey msg' a1 = Return (res, a2) -> a2 = a1) /\
  (theirPublicValue (context a) = None ->
   processDHKey msg a1 = Return ((true, None), a1)).
Proof.
  intros H. unfold processDHKey in H. revert H. monad.
  destruct (chainErrors (ensureValidMessage a) dhKey_deserialize msg)
    as [m|e] eqn:Hchain; [|discriminate].
  pose proof Hchain as Hchain'.
  apply chainErrors_ok in Hchain'. destruct Hchain' as (body & Hvalid & Hdes).
  destruct (dhKey_deserialize_accepts _ Hdes) as (gy & Hgy & _).
  rewrite Hgy.
  assert (Hlater : forall a1 v,
            theirPublicValue (context a1) = Some v ->
            forall msg' res a2,
              processDHKey msg' a1 = Return (res, a2) -> a2 = a1).
  { intros b v Hv msg' res a2 H'. unfold processDHKey in H'. revert H'. monad.
    rewrite Hv. intros H'. crunch H'; reflexivity. }
  destruct (theirPublicValue (context a)) as [v|] eqn:Htheir; simpl;
    intros H; inversion H; subst.
  - split; [eauto|]. split; [eapply Hlater; eassumption | discriminate].
  - split; [simpl; eauto|]. split; [eapply Hlater; reflexivity|].
    intros _. unfold processDHKey. monad.
    change (ensureValidMessage
              (on_context (set_theirPublicValue (Some gy)) a))
      with (ensureValidMessage a).
    rewrite Hchain, Hgy. simpl. unfold eq. rewrite Z.eqb_refl. reflexivity.
Qed.

(** X8: when the commitment and the range of the revealed value are in
    order and the MAC of the signature is not, processRevealSig returns
    the MAC error in its own wording and leaves the revealed value in
    theirPublicValue, with the ssid and the key bundles derived from it. *)
Theorem processRevealSig_keeps_gx_when_mac_fails
    (a : AKE) (msg body : bytes) (m : revealSig.t) (decryptedGx : bytes)
    (gx x : Z) (ssid' : bytes) (revealKey' sigKey' : akeKeys) :
  ensureValidMessage a msg = Ok body ->
  revealSig_deserialize body = Ok m ->
  decrypt (revealSig.r m) (encryptedGx (context a)) = (decryptedGx, None) ->
  sha256Sum decryptedGx = hashedGx (context a) ->
  extractGx decryptedGx = (gx, None) ->
  secretExponent (context a) = Some x ->
  calculateAKEKeys (modExp gx x) = (ssid', revealKey', sigKey') ->
  revealSig.macSig m <>
    firstn 20 (sumHMAC (m2 revealKey') (appendData [] (revealSig.encryptedSig m))) ->
  processRevealSig msg a =
    Return (Some (newOtrError
                    ("in reveal signature message: "
                     ++ "bad signature MAC in encrypted signature")),
            on_context (set_sigKey sigKey')
              (set_revealKey revealKey'
                 (set_ssid ssid'
                    (on_context (set_theirPublicValue (Some gx)) a)))).
Proof.
  intros Hvalid Hdes Hdec Hhash Hgx Hx Hkeys Hmac.
  unfold processRevealSig, calcDHSharedSecret, calcAKEKeys. monad.
  rewrite (chainErrors_second _ _ _ Hvalid), Hdes, Hdec.
  apply checkDecryptedGx_none in Hhash. rewrite Hhash, Hgx. simpl.
  rewrite Hx. simpl. rewrite Hkeys. simpl.
  rewrite processEncryptedSig_bad_mac by assumption. reflexivity.
Qed.



Lemma SetBytes_fold_bound (l : bytes) :
  forall acc, 0 <= acc ->
  0 <= fold_left (fun acc b => acc * 256 + byteZ b) l acc
    < (acc + 1) * 256 ^ Z.of_nat (length l).
Proof.
  induction l as [|b l IH]; intros acc Hacc.
  - simpl. lia.
  - pose proof (byteZ_range b) as Hb.
    change (fold_left (fun acc b => acc * 256 + byteZ b) (b :: l) acc)
      with (fold_left (fun acc b => acc * 256 + byteZ b) l (acc * 256 + byteZ b)).
    specialize (IH (acc * 256 + byteZ b) ltac:(lia)).
    replace (Z.of_nat (length (b :: l))) with (Z.of_nat (length l) + 1)
      by (simpl length; lia).
    rewrite Z.pow_add_r by lia.
    assert (Hpow : 0 < 256 ^ Z.of_nat (length l)) by (apply Z.pow_pos_nonneg; lia).
    nia.
Qed.

Lemma SetBytes_bound (l : bytes) : 0 <= SetBytes l < 256 ^ Z.of_nat (length l).
Proof.
  unfold SetBytes. pose proof (SetBytes_fold_bound l (acc := 0)) as H.
  specialize (H ltac:(lia)). lia.
Qed.

Lemma dhCommitMessage_ok (a a' : AKE) (msg : bytes) :
  length (r (context a)) = 16%nat ->
  dhCommitMessage a = Return (Ok msg, a') ->
  let x := SetBytes (firstn 40 (rand (context a))) in
  let gx := modExp g1 x in
  let r' := firstn 16 (skipn 40 (rand (context a))) in
  let enc := fst (encrypt r' (appendMPI [] gx)) in
  (56 <= length (rand (context a)))%nat /\
  a' = on_context
         (fun ctx =>
            set_encryptedGx enc
              (set_r r'
                 (set_rand (skipn 16 (skipn 40 (rand (context a))))
                    (set_ourPublicValue (Some gx)
                       (set_secretExponent (Some x)
                          (set_ourKeyID 0 ctx)))))) a /\
  msg = dhCommit_serialize
          {| dhCommit.messageHeader := messageHeader (transport (context a));
             dhCommit.gx := Some gx;
             dhCommit.encryptedGx := enc;
             dhCommit.hashedGx := make 32 |}.
Proof.
  intros Hr. unfold dhCommitMessage. monad.
  destruct (Nat.lt_ge_cases (length (rand (context a))) 40) as [H40|H40].
  { rewrite randMPI_short by (rewrite make_length; simpl; lia).
    simpl. discriminate. }
  rewrite randMPI_enough by (rewrite make_length; simpl; lia).
  rewrite make_length. simpl.
  destruct (ReadFull (skipn 40 (rand (context a))) (r (context a)))
    as [[buf' [e|]] rd'] eqn:Hread; simpl; [discriminate|].
  apply ReadFull_ok in Hread. destruct Hread as (Hlen & -> & ->).
  rewrite length_skipn in Hlen. rewrite Hr in *.
  destruct (encrypt _ _) as [enc e] eqn:Henc. simpl.
  intros H. inversion H; subst. clear H. simpl.
  split; [lia|]. split; [by_fields | reflexivity].
Qed.

(** X11: when dhCommitMessage returns a message, the exponent is the
    number in the first 40 bytes of the random source and r the 16 bytes
    after them; the context holds ourKeyID 0, the exponent, g1 to the
    exponent modulo p, and in encryptedGx the encryption under r of the
    MPI of that public value; hashedGx is not written, and the message
    handed to serialize carries the public value, encryptedGx and a zero
    hashedGx. *)
Theorem dhCommitMessage_builds_the_commitment (a a' : AKE) (msg : bytes) :
  length (r (context a)) = 16%nat ->
  dhCommitMessage a = Return (Ok msg, a') ->
  let x := SetBytes (firstn 40 (rand (context a))) in
  let gx := modExp g1 x in
  let r' := firstn 16 (skipn 40 (rand (context a))) in
  let enc := fst (encrypt r' (appendMPI [] gx)) in
  (56 <= length (rand (context a)))%nat /\
  a' = on_context
         (fun ctx =>
            set_encryptedGx enc
              (set_r r'
                 (set_rand (skipn 16 (skipn 40 (rand (context a))))
                    (set_ourPublicValue (Some gx)
                       (set_secretExponent (Some x)
                          (set_ourKeyID 0 ctx)))))) a /\
  msg = dhCommit_serialize
          {| dhCommit.messageHeader := messageHeader (transport (context a));
             dhCommit.gx := Some gx;
             dhCommit.encryptedGx := enc;
             dhCommit.hashedGx := make 32 |}.
Proof. apply dhCommitMessage_ok. Qed.

(** X12: a dhCommitMessage that fails is not without effect.  With fewer
    than 40 bytes in the random source, ourKeyID is 0 and the source is
    used up; with 40 to 55 bytes, moreover the exponent and the public
    value are already replaced and r is overwritten at its front by the
    bytes that were left; encryptedGx is untouched in both cases. *)
Theorem dhCommitMessage_failure_leaves_traces (a : AKE) :
  length (r (context a)) = 16%nat ->
  ((length (rand (context a)) < 40)%nat ->
     dhCommitMessage a =
       Return (Err errShortRandomRead,
               on_context (fun ctx => set_rand [] (set_ourKeyID 0 ctx)) a))
  /\
  ((40 <= length (rand (context a)) < 56)%nat ->
     let x := SetBytes (firstn 40 (rand (context a))) in
     let left := skipn 40 (rand (context a)) in
     dhCommitMessage a =
       Return (Err errShortRandomRead,
               on_context
                 (fun ctx =>
                    set_r (left ++ skipn (length left) (r (context a)))
                      (set_rand []
                         (set_ourPublicValue (Some (modExp g1 x))
                            (set_secretExponent (Some x)
                               (set_ourKeyID 0 ctx))))) a)).
Proof.
  intros Hr. split.
  - intros H40. unfold dhCommitMessage. monad.
    rewrite randMPI_short by (rewrite make_length; simpl; lia).
    simpl. try reflexivity; (f_equal; f_equal; by_fields).
  - intros [H40 H56] x left. unfold dhCommitMessage. monad.
    rewrite randMPI_enough by (rewrite make_length; simpl; lia).
    rewrite make_length. simpl.
    unfold ReadFull.
    replace (Nat.leb (length (r (context a)))
               (length (skipn 40 (rand (context a))))) with false
      by (symmetry; apply Nat.leb_gt; rewrite length_skipn; lia).
    simpl. try reflexivity; (f_equal; f_equal; by_fields).
Qed.

Lemma dhKeyMessage_ok (a : AKE) (msg : bytes) (a' : AKE) :
  dhKeyMessage a = Return (Ok msg, a') ->
  (40 <= length (rand (context a)))%nat /\
  secretExponent (context a') =
    Some (SetBytes (firstn 40 (rand (context a)))) /\
  ourPublicValue (context a') =
    Some (modExp g1 (SetBytes (firstn 40 (rand (context a))))).
Proof.
  unfold dhKeyMessage. monad.
  destruct (Nat.lt_ge_cases (length (rand (context a))) 40) as [H40|H40].
  { rewrite randMPI_short by (rewrite make_length; simpl; lia).
    simpl. discriminate. }
  rewrite randMPI_enough by (rewrite make_length; simpl; lia).
  rewrite make_length. simpl.
  intros H. inversion H; subst. simpl. auto.
Qed.

(** X13: the exponent that dhCommitMessage and dhKeyMessage draw is a
    number below 2^320, and the public value they set lies in [0, p). *)
Theorem drawn_exponent_and_public_value_bounds
    (a a' : AKE) (msg : bytes) :
  0 < p ->
  length (r (context a)) = 16%nat ->
  dhCommitMessage a = Return (Ok msg, a') \/
  dhKeyMessage a = Return (Ok msg, a') ->
  exists x gx,
    secretExponent (context a') = Some x /\
    ourPublicValue (context a') = Some gx /\
    0 <= x < 2 ^ 320 /\
    0 <= gx < p.
Proof.
  intros Hp Hr H.
  assert (Hx : forall rd : bytes,
            (40 <= length rd)%nat -> 0 <= SetBytes (firstn 40 rd) < 2 ^ 320).
  { intros rd Hlen. pose proof (SetBytes_bound (firstn 40 rd)) as Hb.
    rewrite length_firstn, Nat.min_l in Hb by assumption.
    change (256 ^ Z.of_nat 40) with (2 ^ 320) in Hb. exact Hb. }
  assert (Hg : forall x, 0 <= modExp g1 x < p).
  { intros x. rewrite modExp_spec by lia. apply Z.mod_pos_bound. assumption. }
  destruct H as [H|H].
  - apply dhCommitMessage_ok in H; [|assumption].
    destruct H as (Hlen & -> & _). simpl.
    do 2 eexists. split; [reflexivity|]. split; [reflexivity|].
    split; [apply Hx; lia | apply Hg].
  - apply dhKeyMessage_ok in H. destruct H as (Hlen & Hx' & Hgx').
    do 2 eexists. split; [exact Hx'|]. split; [exact Hgx'|].
    split; [apply Hx; assumption | apply Hg].
Qed.

(** X14: when sendDHCommit fails, because dhCommitMessage does or because
    the header cannot be put on, the state of the AKE and the
    key-management context are what they were. *)
Theorem sendDHCommit_failure_keeps_state_and_keys
    (conv conv' : Conversation) (e : error) :
  sendDHCommit conv = Return (Err e, conv') ->
  state conv' = state conv /\ keys conv' = keys conv /\
  ((exists a', dhCommitMessage (ake conv) = Return (Err e, a')) \/
   (exists toSend a' wrapped t,
      dhCommitMessage (ake conv) = Return (Ok toSend, a') /\
      wrapMessageHeader (transport (context a')) msgTypeDHCommit toSend
        = ((wrapped, Some e), t))).
Proof.
  unfold sendDHCommit, wrapMessageHeader_c. monad.
  destruct (dhCommitMessage (ake conv)) as [|[[toSend|e0] a1]] eqn:Hc; simpl;
    try discriminate.
  - destruct (wrapMessageHeader (transport (context a1)) msgTypeDHCommit toSend)
      as [[wrapped [e1|]] t] eqn:Hw; simpl;
      intros H; inversion H; subst; simpl.
    split; [reflexivity|]. split; [reflexivity|].
    right. exists toSend, a1, wrapped, t. auto.
  - intros H. inversion H; subst. simpl.
    split; [reflexivity|]. split; [reflexivity|]. left. eauto.
Qed.

(** X15: extractGx returns a nil error exactly for bytes that are one MPI,
    with nothing after it, of a value within [2, p-2]; bytes that do not
    decode or have something left over give the corrupt error, whatever
    the value. *)
Theorem extractGx_accepts_exactly_one_value_in_range (d : bytes) :
  (forall gx,
     extractGx d = (gx, None) <->
     extractMPI d = ([], gx, true) /\ 2 <= gx <= p - 2)
  /\
  (forall rest gx ok,
     extractMPI d = (rest, gx, ok) ->
     ok = false \/ rest <> [] ->
     extractGx d = (gx, Some (errorsNew "otr: gx corrupt after decryption"))).
Proof.
  split.
  - intros gx. split.
    + intros H. split; [|eapply extractGx_accepts; eassumption].
      unfold extractGx in H.
      destruct (extractMPI d) as [[newData v] ok].
      destruct ok; simpl in H; [|discriminate].
      destruct newData; simpl in H; [|discriminate].
      destruct (lt v g1 || gt v pMinusTwo); inversion H. reflexivity.
    + intros [Hd Hrange]. unfold extractGx. rewrite Hd. simpl.
      unfold lt, gt, g1, pMinusTwo.
      replace (Z.ltb gx 2) with false by (symmetry; apply Z.ltb_ge; lia).
      replace (Z.gtb gx (p - 2)) with false
        by (symmetry; rewrite Z.gtb_ltb; apply Z.ltb_ge; lia).
      reflexivity.
  - intros rest gx ok Hd Hbad. unfold extractGx. rewrite Hd.
    destruct Hbad as [->|Hrest]; [reflexivity|].
    destruct rest; [congruence|].
    destruct ok; reflexivity.
Qed.

End MoreProofs.

(** ** Send and the heartbeat *)

Section SendProofs.
Context {T : ExternalTypes} {E : Externals} {P : ConversationTypes}
        {C : ConversationExternals}.

#[local] Arguments String.append : simpl never.
#[local] Opaque heartbeatInterval.

Ltac monad := unfold bind, get, modify, ret, deref, panic, within; simpl.

Ltac crunch H :=
  repeat (simpl in H;
    match type of H with
    | Panic = Return _ => discriminate H
    | Return _ = Return _ => inversion H; subst; clear H
    | context [match ?x with _ => _ end] =>
        lazymatch x with
        | context [match _ with _ => _ end] => fail
        | _ => destruct x eqn:?
        end
    end).

(** X16: Send returns the message as it is, with no error and no change
    of the conversation, when OTR is not enabled, whatever the message
    state, even finished; and in the plaintext state when the policies
    neither require encryption nor ask for the whitespace tag. *)
Theorem Send_passes_plaintext_through (s : Session) (m : bytes) :
  isOTREnabled (Policies s) = false \/
  (msgStateOf s = plainText /\
   has (Policies s) requireEncryption = false /\
   has (Policies s) sendWhitespaceTag = false) ->
  Send m s = Return (([m], None), s).
Proof.
  intros [Hoff|(Hstate & Hreq & Htag)]; unfold Send; monad.
  - rewrite Hoff. reflexivity.
  - destruct (isOTREnabled (Policies s)); simpl; [|reflexivity].
    rewrite Hstate, Hreq, Htag. reflexivity.
Qed.

(** X17: in the plaintext state, with OTR enabled and encryption required,
    what Send returns and does is the same for every message: the message
    is not sent, the query message is; an EncryptionRequired event is
    raised and lastSent becomes the reading of the clock. *)
Theorem Send_withholds_message_when_encryption_required
    (s : Session) (m m' : bytes) :
  isOTREnabled (Policies s) = true ->
  msgStateOf s = plainText ->
  has (Policies s) requireEncryption = true ->
  Send m s = Send m' s /\
  Send m s =
    (q <- queryMessage ;; ret ([q], None))
      (set_heartbeat {| lastSent := wallClock s (clockReads s) |}
         (set_clockReads (S (clockReads s))
            (set_events (events s ++ [MessageEventEncryptionRequired]) s))).
Proof.
  intros Hon Hstate Hreq. unfold Send, updateLastSent, timeNow, notify. monad.
  rewrite Hon, Hstate, Hreq. simpl. auto.
Qed.

(** X18: Send returns an error in three cases only, all with OTR enabled:
    in the finished state, with no message and a ConnectionEnded event;
    in a state that is none of the three it knows, with no message and no
    change; and in the encrypted state when createSerializedDataMessage
    fails, with what that returned and an EncryptionError event after it. *)
Theorem Send_errors (s s' : Session) (m : bytes) (res : list bytes) (e : error) :
  Send m s = Return ((res, Some e), s') ->
  isOTREnabled (Policies s) = true /\
  ((msgStateOf s = finished /\ res = [] /\
    e = errorsNew
          "otr: cannot send message because secure conversation has finished" /\
    s' = set_events (events s ++ [MessageEventConnectionEnded]) s)
   \/
   (msgStateOf s = msgStateOther /\ res = [] /\
    e = errorsNew "otr: cannot send message in current state" /\ s' = s)
   \/
   (msgStateOf s = encrypted /\
    exists s1,
      createSerializedDataMessage m messageFlagNormal [] s
        = Return ((res, Some e), s1) /\
      s' = set_events (events s1 ++ [MessageEventEncryptionError]) s1)).
Proof.
  intros H. unfold Send, updateLastSent, timeNow, notify in H.
  revert H. monad.
  destruct (isOTREnabled (Policies s)); simpl; [|discriminate].
  split; [reflexivity|].
  destruct (msgStateOf s) eqn:Hstate.
  - destruct (has (Policies s) requireEncryption); simpl.
    + destruct (queryMessage _) as [|[q s1]]; discriminate.
    + destruct (has (Policies s) sendWhitespaceTag); simpl; [|discriminate].
      destruct (appendWhitespaceTag m s) as [|[tagged s1]]; discriminate.
  - right. right. split; [reflexivity|].
    destruct (createSerializedDataMessage m messageFlagNormal [] s)
      as [|[[result [err|]] s1]] eqn:Hc; simpl in H; try discriminate.
    inversion H; subst. exists s1. auto.
  - left. inversion H; subst. auto.
  - right. left. inversion H; subst. auto.
Qed.

(** X19: no heartbeat is attempted, and nothing changes but the count of
    clock readings, when maybeHeartbeat is handed an error (which it
    returns, with nil for the rest), when there is no plaintext, or when
    lastSent is not more than heartbeatInterval before the clock
    reading. *)
Theorem no_heartbeat_when_not_due
    (s : Session) (plain toSend : option bytes) (err : error) :
  maybeHeartbeat plain toSend (Some err) s = Return ((None, None, None, Some err), s)
  /\
  potentialHeartbeat None s = Return ((None, None), s)
  /\
  maybeHeartbeat None toSend None s = Return ((None, toSend, None, None), s)
  /\
  (forall msg,
     wallClock s (clockReads s) - heartbeatInterval <= lastSent (heartbeat s) ->
     potentialHeartbeat (Some msg) s =
       Return ((None, None), set_clockReads (S (clockReads s)) s) /\
     maybeHeartbeat (Some msg) toSend None s =
       Return ((Some msg, toSend, None, None),
               set_clockReads (S (clockReads s)) s)).
Proof.
  split; [reflexivity|]. split; [reflexivity|]. split; [reflexivity|].
  intros msg Hrecent.
  assert (Hp : potentialHeartbeat (Some msg) s =
               Return ((None, None), set_clockReads (S (clockReads s)) s)).
  { unfold potentialHeartbeat, timeNow, timeBefore, timeAdd. monad.
    replace (Z.ltb (lastSent (heartbeat s))
               (wallClock s (clockReads s) + - heartbeatInterval)) with false
      by (symmetry; apply Z.ltb_ge; lia).
    reflexivity. }
  split; [exact Hp|].
  unfold maybeHeartbeat, bind. rewrite Hp. reflexivity.
Qed.

(** X20: potentialHeartbeat returns a message only when there is a
    plaintext and lastSent is more than heartbeatInterval before the
    clock reading; the message is the data message of
    genDataMsgWithFlag, serialized and given its header; lastSent is then
    a clock reading taken after that and the last event is
    HeartbeatSent. *)
Theorem heartbeat_only_after_interval
    (s s' : Session) (plain : option bytes) (toSend : bytes)
    (err : option error) :
  potentialHeartbeat plain s = Return ((Some toSend, err), s') ->
  err = None /\
  plain <> None /\
  lastSent (heartbeat s) < wallClock s (clockReads s) - heartbeatInterval /\
  exists dataMsg s1 t,
    genDataMsgWithFlag None messageFlagIgnoreUnreadable
      (set_clockReads (S (clockReads s)) s) = Return ((dataMsg, None), s1) /\
    wrapMessageHeader (transport (context (ake (conversation s1)))) msgTypeData
      (dataMessage_serialize dataMsg) = ((toSend, None), t) /\
    lastSent (heartbeat s') = wallClock s1 (clockReads s1) /\
    clockReads s' = S (clockReads s1) /\
    events s' = events s1 ++ [MessageEventHeartbeatSent].
Proof.
  intros H.
  unfold potentialHeartbeat, updateLastSent, timeNow, notify,
    wrapMessageHeader_c, timeBefore, timeAdd in H.
  destruct plain as [msg|]; [|revert H; monad; discriminate].
  revert H. monad.
  destruct (Z.ltb_spec (lastSent (heartbeat s))
              (wallClock s (clockReads s) + - heartbeatInterval)) as [Hdue|Hdue];
    [|discriminate].
  destruct (genDataMsgWithFlag None messageFlagIgnoreUnreadable _)
    as [|[[dataMsg [e|]] s1]] eqn:Hgen; simpl; try discriminate.
  destruct (wrapMessageHeader _ _ _) as [[wrapped [e|]] t] eqn:Hwrap; simpl;
    try discriminate.
  intros H. inversion H; subst. simpl.
  split; [reflexivity|]. split; [discriminate|]. split; [lia|].
  exists dataMsg, s1, t. auto.
Qed.

(** X21: when potentialHeartbeat returns an error, it returns no message,
    and the error is that of genDataMsgWithFlag or of wrapMessageHeader;
    the conversation is as these left it: lastSent is not brought forward
    and no HeartbeatSent event is raised. *)
Theorem heartbeat_failure_sends_nothing
    (s s' : Session) (plain toSend : option bytes) (e : error) :
  potentialHeartbeat plain s = Return ((toSend, Some e), s') ->
  toSend = None /\
  exists dataMsg s1,
    (genDataMsgWithFlag None messageFlagIgnoreUnreadable
       (set_clockReads (S (clockReads s)) s) = Return ((dataMsg, Some e), s1) /\
     s' = s1)
    \/
    (exists wrapped t,
       genDataMsgWithFlag None messageFlagIgnoreUnreadable
         (set_clockReads (S (clockReads s)) s) = Return ((dataMsg, None), s1) /\
       wrapMessageHeader (transport (context (ake (conversation s1)))) msgTypeData
         (dataMessage_serialize dataMsg) = ((wrapped, Some e), t) /\
       heartbeat s' = heartbeat s1 /\ events s' = events s1 /\
       clockReads s' = clockReads s1).
Proof.
  intros H.
  unfold potentialHeartbeat, updateLastSent, timeNow, notify,
    wrapMessageHeader_c, timeBefore, timeAdd in H.
  destruct plain as [msg|]; [|revert H; monad; discriminate].
  revert H. monad.
  destruct (Z.ltb (lastSent (heartbeat s))
              (wallClock s (clockReads s) + - heartbeatInterval));
    [|discriminate].
  destruct (genDataMsgWithFlag None messageFlagIgnoreUnreadable _)
    as [|[[dataMsg [e0|]] s1]] eqn:Hgen; simpl; try discriminate.
  - intros H. inversion H; subst. split; [reflexivity|].
    exists dataMsg, s'. left. auto.
  - destruct (wrapMessageHeader _ _ _) as [[wrapped [e1|]] t] eqn:Hwrap; simpl;
      try discriminate.
    intros H. inversion H; subst. split; [reflexivity|].
    exists dataMsg, s1. right. exists wrapped, t. simpl. auto.
Qed.

End SendProofs.

(** ** The further theorems at concrete inputs *)

Section MoreExamples.
Import Doubles Run ConversationDoubles.

Lemma shared_secret_agrees_witness :
  calcDHSharedSecret five = Return ((g1 ^ (5 * 7)) mod p, five) /\
  calcDHSharedSecret seven = Return ((g1 ^ (5 * 7)) mod p, seven) /\
  forall a' b',
    calcAKEKeys ((g1 ^ (5 * 7)) mod p) five = Return (tt, a') ->
    calcAKEKeys ((g1 ^ (5 * 7)) mod p) seven = Return (tt, b') ->
    ssid a' = ssid b' /\ revealKey a' = revealKey b' /\
    sigKey (context a') = sigKey (context b').
Proof.
  apply (shared_secret_agrees five seven (x := 5) (y := 7)
           (gx := modExp g1 5) (gy := modExp g1 7));
    try (vm_compute; reflexivity); try lia.
Defined.

Lemma processEncryptedSig_accepts_only_verified_witness :
  sig.macSig sigBody =
    firstn 20 (sumHMAC (m2 bobKeys) (appendData [] (sig.encryptedSig sigBody))) /\
  exists decryptedSig nextPoint key w keyID one two,
    decrypt (c bobKeys) (sig.encryptedSig sigBody) = (decryptedSig, None) /\
    PublicKey_parse decryptedSig = (nextPoint, key, true) /\
    extractWord nextPoint = (w, keyID, true) /\
    (4 <= length nextPoint)%nat /\
    theirPublicValue (context bob3) = Some one /\
    ourPublicValue (context bob3) = Some two /\
    PublicKey_verify key (sumHMAC (m1 bobKeys) (appendAll one two key keyID))
      (skipn 4 nextPoint) = ([], true) /\
    bob4 = on_context (set_theirKeyID keyID)
             (on_context (set_theirKey (Some key)) bob3).
Proof.
  apply processEncryptedSig_accepts_only_verified.
  vm_compute. reflexivity.
Defined.

Lemma signature_processing_touches_only_peer_key_witness :
  (on_context (fun ctx => set_theirKeyID (theirKeyID (context bob3))
                            (set_theirKey (theirKey (context bob3)) ctx)) bob4
   = bob3 /\
   (@None error <> None ->
    theirKeyID (context bob4) = theirKeyID (context bob3)))
  /\
  (on_context (fun ctx => set_theirKeyID (theirKeyID (context bob3))
                            (set_theirKey (theirKey (context bob3)) ctx))
     (on_context (set_theirKey (Some 10)) bob3)
   = bob3 /\
   (Some (errorsNew ("otr: in signature message: "
                     ++ "bad signature in encrypted signature")) <> None ->
    theirKeyID (context (on_context (set_theirKey (Some 10)) bob3))
    = theirKeyID (context bob3))).
Proof.
  split.
  - apply (signature_processing_touches_only_peer_key sigMsg
             (sig.encryptedSig sigBody) (sig.macSig sigBody) bobKeys bob3).
    left. vm_compute. reflexivity.
  - apply (signature_processing_touches_only_peer_key
             (header ++ putData [] spoiledSig ++ macOf spoiledSig)
             [] [] bobKeys bob3).
    right. vm_compute. reflexivity.
Defined.

Lemma signature_accepted_by_peer_witness :
  exists xb,
    generateEncryptedSignature (revealKey bob3) bobDerived =
      Return (Ok (appendData [] xb), bob3) /\
    processEncryptedSig xb
      (firstn 20 (sumHMAC (m2 (revealKey bob3)) (appendData [] xb)))
      (revealKey bob3) alice3 =
      Return (None, on_context (set_theirKeyID (ourKeyID (context bobDerived)))
                      (on_context (set_theirKey (Some (PrivateKey_PublicKey 5)))
                         alice3)).
Proof.
  assert (H := signature_accepted_by_peer bobDerived alice3 (revealKey bob3)
                 (gx := 1350) (gy := 517) (priv := 5)
                 (sigb := skipn 9 (keystream (c (revealKey bob3))
                                     (revealSig.encryptedSig revealBody)))
                 (nextPoint := skipn 5 (keystream (c (revealKey bob3))
                                          (revealSig.encryptedSig revealBody)))
                 (w := skipn 9 (keystream (c (revealKey bob3))
                                  (revealSig.encryptedSig revealBody)))
                 (rd := rand (context bob3))).
  cbv zeta in H.
  repeat match type of H with
         | ?A -> _ =>
             let HA := fresh "HA" in
             assert (HA : A) by (vm_compute; first [reflexivity | lia]);
             specialize (H HA)
         end.
  destruct H as [xb [Hgen Hproc]].
  assert (Hstate : on_context (set_rand (rand (context bob3))) bobDerived = bob3)
    by (vm_compute; reflexivity).
  rewrite Hstate in Hgen.
  exists xb. split; [exact Hgen | exact Hproc].
Defined.

Lemma signing_failure_gives_no_message_witness :
  exists a', revealSigMessage bobNoRandom = Return (Err errShortRandomRead, a').
Proof.
  destruct (signing_failure_gives_no_message bobNoRandom (revealKey bob3)
              (gx := 1350) (gy := 517)
              (x := SetBytes (firstn 40 (rand (context bob0))))
              (priv := 5)
              (ssid' := ssid bob3) (revealKey' := revealKey bob3)
              (sigKey' := sigKey (context bob3))
              (sigb := []) (e := ioErrUnexpectedEOF) (rd := [])) as [H _];
    try (vm_compute; reflexivity).
  apply H. reflexivity.
Defined.

Lemma signature_messages_derive_keys_witness :
  (exists gy x,
     theirPublicValue (context bob2) = Some gy /\
     secretExponent (context bob2) = Some x /\
     (ssid bob3, revealKey bob3, sigKey (context bob3))
       = calculateAKEKeys (modExp gy x))
  /\
  set_ssid (ssid bob2)
    (set_revealKey (revealKey bob2)
       (on_context (fun ctx => set_sigKey (sigKey (context bob2))
                                 (set_rand (rand (context bob2)) ctx)) bob3))
  = bob2.
Proof.
  apply (signature_messages_derive_keys bob2 (res := Ok revealMsg)).
  left. vm_compute. reflexivity.
Defined.

Lemma processDHKey_first_value_stays_witness :
  (exists v, theirPublicValue (context bob2) = Some v) /\
  (forall msg' res a2, processDHKey msg' bob2 = Return (res, a2) -> a2 = bob2) /\
  (theirPublicValue (context bob1) = None ->
   processDHKey keyMsg bob2 = Return ((true, None), bob2)).
Proof.
  apply (processDHKey_first_value_stays bob1 keyMsg (same := false)).
  vm_compute. reflexivity.
Defined.

Lemma processRevealSig_keeps_gx_when_mac_fails_witness :
  processRevealSig revealMsgWrongMac alice2 =
    Return (Some (newOtrError
                    ("in reveal signature message: "
                     ++ "bad signature MAC in encrypted signature")),
            aliceWrongMac)
  /\ theirPublicValue (context aliceWrongMac) = Some 1350.
Proof.
  split; [|vm_compute; reflexivity].
  rewrite (processRevealSig_keeps_gx_when_mac_fails alice2 revealMsgWrongMac
             (body := skipn 3 revealMsgWrongMac)
             (m := {| revealSig.messageHeader := [];
                      revealSig.r := revealSig.r revealBody;
                      revealSig.encryptedSig := revealSig.encryptedSig revealBody;
                      revealSig.macSig := repeat x00 20 |})
             (decryptedGx := putMPI [] 1350)
             (gx := 1350)
             (x := SetBytes (firstn 40 (rand (context alice1))))
             (ssid' := ssid bob3) (revealKey' := revealKey bob3)
             (sigKey' := sigKey (context bob3)));
    try (vm_compute; reflexivity).
  vm_compute. discriminate.
Defined.



Lemma dhCommitMessage_builds_the_commitment_witness :
  let x := SetBytes (firstn 40 (rand (context bob0))) in
  let gx := modExp g1 x in
  let r' := firstn 16 (skipn 40 (rand (context bob0))) in
  let enc := fst (encrypt r' (appendMPI [] gx)) in
  (56 <= length (rand (context bob0)))%nat /\
  bob1 = on_context
           (fun ctx =>
              set_encryptedGx enc
                (set_r r'
                   (set_rand (skipn 16 (skipn 40 (rand (context bob0))))
                      (set_ourPublicValue (Some gx)
                         (set_secretExponent (Some x)
                            (set_ourKeyID 0 ctx)))))) bob0 /\
  commitMsg = dhCommit_serialize
                {| dhCommit.messageHeader := messageHeader (transport (context bob0));
                   dhCommit.gx := Some gx;
                   dhCommit.encryptedGx := enc;
                   dhCommit.hashedGx := make 32 |}.
Proof.
  apply (dhCommitMessage_builds_the_commitment bob0 (a' := bob1) (msg := commitMsg)).
  - reflexivity.
  - vm_compute. reflexivity.
Defined.

Lemma dhCommitMessage_failure_leaves_traces_witness :
  dhCommitMessage starved10 =
    Return (Err errShortRandomRead,
            on_context (fun ctx => set_rand [] (set_ourKeyID 0 ctx)) starved10)
  /\
  (let x := SetBytes (firstn 40 (rand (context starved45))) in
   let left := skipn 40 (rand (context starved45)) in
   dhCommitMessage starved45 =
     Return (Err errShortRandomRead,
             on_context
               (fun ctx =>
                  set_r (left ++ skipn (length left) (r (context starved45)))
                    (set_rand []
                       (set_ourPublicValue (Some (modExp g1 x))
                          (set_secretExponent (Some x)
                             (set_ourKeyID 0 ctx))))) starved45)).
Proof.
  split.
  - destruct (dhCommitMessage_failure_leaves_traces starved10 eq_refl) as [H _].
    apply H. vm_compute. lia.
  - destruct (dhCommitMessage_failure_leaves_traces starved45 eq_refl) as [_ H].
    apply H. vm_compute. lia.
Defined.

Lemma drawn_exponent_and_public_value_bounds_witness :
  exists x gx,
    secretExponent (context alice2) = Some x /\
    ourPublicValue (context alice2) = Some gx /\
    0 <= x < 2 ^ 320 /\
    0 <= gx < p.
Proof.
  apply (drawn_exponent_and_public_value_bounds alice1 (a' := alice2) (msg := keyMsg)).
  - vm_compute. reflexivity.
  - reflexivity.
  - right. vm_compute. reflexivity.
Defined.

Lemma sendDHCommit_failure_keeps_state_and_keys_witness :
  state convStarved1 = state convStarved /\
  keys convStarved1 = keys convStarved /\
  ((exists a',
      dhCommitMessage (ake convStarved) = Return (Err errShortRandomRead, a')) \/
   (exists toSend a' wrapped t,
      dhCommitMessage (ake convStarved) = Return (Ok toSend, a') /\
      wrapMessageHeader (transport (context a')) msgTypeDHCommit toSend
        = ((wrapped, Some errShortRandomRead), t))).
Proof.
  apply (sendDHCommit_failure_keeps_state_and_keys convStarved).
  vm_compute. reflexivity.
Defined.

Lemma extractGx_accepts_exactly_one_value_in_range_witness :
  extractGx (putMPI [] 5) = (5, None) /\
  extractGx (putMPI [] 1 ++ [x00])
    = (1, Some (errorsNew "otr: gx corrupt after decryption")).
Proof.
  split.
  - destruct (extractGx_accepts_exactly_one_value_in_range (putMPI [] 5))
      as [H _].
    apply H. split; [vm_compute; reflexivity | vm_compute; split; discriminate].
  - destruct (extractGx_accepts_exactly_one_value_in_range (putMPI [] 1 ++ [x00]))
      as [_ H].
    apply (H [x00] 1 true); [vm_compute; reflexivity | right; discriminate].
Defined.

Lemma Send_passes_plaintext_through_witness :
  Send hello (session (false, [requireEncryption]) finished 0 true)
    = Return (([hello], None), session (false, [requireEncryption]) finished 0 true)
  /\
  Send hello (session (true, []) plainText 0 true)
    = Return (([hello], None), session (true, []) plainText 0 true).
Proof.
  split.
  - apply Send_passes_plaintext_through. left. reflexivity.
  - apply Send_passes_plaintext_through. right. repeat split.
Defined.

Lemma Send_withholds_message_when_encryption_required_witness :
  let s := session (true, [requireEncryption]) plainText 0 true in
  Send hello s = Send [] s /\
  Send hello s =
    (q <- queryMessage ;; ret ([q], None))
      (set_heartbeat {| lastSent := wallClock s (clockReads s) |}
         (set_clockReads (S (clockReads s))
            (set_events (events s ++ [MessageEventEncryptionRequired]) s))).
Proof.
  apply Send_withholds_message_when_encryption_required; reflexivity.
Defined.

Lemma Send_errors_witness :
  let s := session (true, []) encrypted 0 false in
  isOTREnabled (Policies s) = true /\
  ((msgStateOf s = finished /\ @nil bytes = [] /\
    errorsNew "otr: no data keys" =
      errorsNew "otr: cannot send message because secure conversation has finished" /\
    set_events [MessageEventEncryptionError] s
      = set_events (events s ++ [MessageEventConnectionEnded]) s)
   \/
   (msgStateOf s = msgStateOther /\ @nil bytes = [] /\
    errorsNew "otr: no data keys"
      = errorsNew "otr: cannot send message in current state" /\
    set_events [MessageEventEncryptionError] s = s)
   \/
   (msgStateOf s = encrypted /\
    exists s1,
      createSerializedDataMessage hello messageFlagNormal [] s
        = Return (([], Some (errorsNew "otr: no data keys")), s1) /\
      set_events [MessageEventEncryptionError] s
        = set_events (events s1 ++ [MessageEventEncryptionError]) s1)).
Proof.
  intros s.
  apply (Send_errors s hello). reflexivity.
Defined.

Lemma no_heartbeat_when_not_due_witness :
  let s := session (true, []) encrypted 50000000000 true in
  potentialHeartbeat (Some hello) s =
    Return ((None, None), set_clockReads (S (clockReads s)) s) /\
  maybeHeartbeat (Some hello) (Some [x01]) None s =
    Return ((Some hello, Some [x01], None, None),
            set_clockReads (S (clockReads s)) s).
Proof.
  intros s.
  destruct (no_heartbeat_when_not_due s (Some hello) (Some [x01]) ioEOF)
    as (_ & _ & _ & H).
  apply H. vm_compute. discriminate.
Defined.

Lemma heartbeat_only_after_interval_witness :
  let s := session (true, []) encrypted 0 true in
  let s' := set_events [MessageEventHeartbeatSent]
              (set_heartbeat {| lastSent := 101000000000 |}
                 (set_clockReads 2 s)) in
  @None error = None /\
  Some hello <> None /\
  lastSent (heartbeat s) < wallClock s (clockReads s) - heartbeatInterval /\
  exists dataMsg s1 t,
    genDataMsgWithFlag None messageFlagIgnoreUnreadable
      (set_clockReads (S (clockReads s)) s) = Return ((dataMsg, None), s1) /\
    wrapMessageHeader (transport (context (ake (conversation s1)))) msgTypeData
      (dataMessage_serialize dataMsg) = (([x00], None), t) /\
    lastSent (heartbeat s') = wallClock s1 (clockReads s1) /\
    clockReads s' = S (clockReads s1) /\
    events s' = events s1 ++ [MessageEventHeartbeatSent].
Proof.
  intros s s'.
  apply (heartbeat_only_after_interval s (Some hello) (s' := s')).
  vm_compute. reflexivity.
Defined.

Lemma heartbeat_failure_sends_nothing_witness :
  let s := session (true, []) encrypted 0 false in
  @None bytes = None /\
  exists dataMsg s1,
    (genDataMsgWithFlag None messageFlagIgnoreUnreadable
       (set_clockReads (S (clockReads s)) s)
       = Return ((dataMsg, Some (errorsNew "otr: no data keys")), s1) /\
     set_clockReads 1 s = s1)
    \/
    (exists wrapped t,
       genDataMsgWithFlag None messageFlagIgnoreUnreadable
         (set_clockReads (S (clockReads s)) s) = Return ((dataMsg, None), s1) /\
       wrapMessageHeader (transport (context (ake (conversation s1)))) msgTypeData
         (dataMessage_serialize dataMsg)
         = ((wrapped, Some (errorsNew "otr: no data keys")), t) /\
       heartbeat (set_clockReads 1 s) = heartbeat s1 /\
       events (set_clockReads 1 s) = events s1 /\
       clockReads (set_clockReads 1 s) = clockReads s1).
Proof.
  intros s.
  apply (heartbeat_failure_sends_nothing s (Some hello)).
  vm_compute. reflexivity.
Defined.

End MoreExamples.
